(** * The firmware image engine of munifying (package [unifying])

    A shallow embedding of the firmware loader, the two format detectors
    and the BOT03.02 -> BOT03.01 downgrade patcher, together with the
    properties of the engine's specification.

    Conventions of the embedding:
    - a Go [byte] is a [Byte.byte]; [b2z] is the conversion [int(b)] and
      [z2b] the truncating conversion [byte(x)];
    - a [uint16] is a [Z] kept in [0, 2^16); every arithmetic operation on
      it is followed by [u16], the wrap-around of the machine;
    - a Go [int] is a [Z] (the range of a 64-bit [int] is never reached);
    - a [[]byte] is a [list byte] whose capacity equals its length, as for
      a slice literal or the result of [make]; the [nil] slice of the
      [RawData] field is [None];
    - a run-time panic (slice bounds or index out of range) is the outcome
      [Panicked]; a method with a pointer receiver takes the entity and
      gives back the entity as the call left it. *)

From Stdlib Require Import ZArith List Bool Lia String Ascii Permutation.
From Stdlib Require Import Strings.Byte.
Import ListNotations.
Local Open Scope Z_scope.

(** ** Bytes and machine integers *)

Abbreviation byte := Byte.byte.
Definition bytes := list byte.

Definition b2z (b : byte) : Z := Z.of_N (Byte.to_N b).

Definition z2b (z : Z) : byte :=
  match Byte.of_N (Z.to_N (z mod 256)) with
  | Some b => b
  | None => Byte.x00
  end.

Definition u16 (z : Z) : Z := z mod 65536.
Definition u8 (z : Z) : Z := z mod 256.

Definition len {A : Type} (s : list A) : Z := Z.of_nat (List.length s).

(** ** Outcomes: a call returns or the process panics *)

Inductive outcome (A : Type) : Type :=
| Returned (a : A)
| Panicked.
Arguments Returned {A} a.
Arguments Panicked {A}.

Definition bind {A B : Type} (m : outcome A) (k : A -> outcome B) : outcome B :=
  match m with
  | Returned a => k a
  | Panicked => Panicked
  end.

Notation "x <- m ;; k" := (bind m (fun x => k))
  (at level 61, m at next level, right associativity).

Definition error := string.

(** ** Slices *)

(** [s[lo:hi]] *)
Definition slice (s : bytes) (lo hi : Z) : outcome bytes :=
  if (0 <=? lo) && (lo <=? hi) && (hi <=? len s)
  then Returned (firstn (Z.to_nat (hi - lo)) (skipn (Z.to_nat lo) s))
  else Panicked.

(** [s[i]] *)
Definition index (s : bytes) (i : Z) : outcome byte :=
  if (0 <=? i) && (i <? len s)
  then Returned (nth (Z.to_nat i) s Byte.x00)
  else Panicked.

(** The bytes [src] written over [dst] from position [off] on; the caller
    makes sure they fit. *)
Definition blit (dst : bytes) (off : Z) (src : bytes) : bytes :=
  firstn (Z.to_nat off) dst ++ src
    ++ skipn (Z.to_nat off + List.length src) dst.

(** [s[i] = b] *)
Definition store (s : bytes) (i : Z) (b : byte) : outcome bytes :=
  if (0 <=? i) && (i <? len s)
  then Returned (blit s i [b])
  else Panicked.

(** [copy(dst[lo:hi], src)]: the window is taken first, then
    [min(hi - lo, len(src))] bytes are copied into it. *)
Definition copy_window (dst : bytes) (lo hi : Z) (src : bytes) : outcome bytes :=
  win <- slice dst lo hi ;;
  Returned (blit dst lo (firstn (List.length win) src)).

(** [make([]byte, n)] *)
Definition make (n : Z) : bytes := repeat Byte.x00 (Z.to_nat n).

(** [for i := lo; i < hi; i++ { s = body i s }] *)
Fixpoint for_loop {S : Type} (n : nat) (i : Z) (body : Z -> S -> outcome S)
  (s : S) : outcome S :=
  match n with
  | O => Returned s
  | Datatypes.S n' => s' <- body i s ;; for_loop n' (i + 1) body s'
  end.

Definition for_range {S : Type} (lo hi : Z) (body : Z -> S -> outcome S)
  (s : S) : outcome S :=
  for_loop (Z.to_nat (hi - lo)) lo body s.

(** ** Library functions the engine calls *)

Fixpoint is_prefix (p s : bytes) : bool :=
  match p, s with
  | [], _ => true
  | _ :: _, [] => false
  | a :: p', b :: s' => Byte.eqb a b && is_prefix p' s'
  end.

(** Modelled from the spec: [bytes.Replace(s, old, new, -1)] of the Go
    standard library, a dependency of the package, for a non-empty [old]: the
    non-overlapping instances of [old], found from left to right, are
    replaced by [new].  [skip] counts the bytes of [s] that still belong
    to the instance replaced last. *)
Fixpoint replace_from (old new : bytes) (skip : nat) (s : bytes) : bytes :=
  match s with
  | [] => []
  | b :: s' =>
      match skip with
      | Datatypes.S k => replace_from old new k s'
      | O =>
          if is_prefix old s
          then new ++ replace_from old new (Nat.pred (List.length old)) s'
          else b :: replace_from old new O s'
      end
  end.

Definition Replace (s old new : bytes) : bytes := replace_from old new O s.

(** Modelled from the spec: [strings.Index(s, sep)] of the Go standard
    library, a dependency of the package: the position of the first
    instance of [sep] in [s], or [-1]. *)
Fixpoint Index_from (sep : bytes) (i : Z) (s : bytes) : Z :=
  if is_prefix sep s then i
  else match s with
       | [] => -1
       | _ :: s' => Index_from sep (i + 1) s'
       end.

Definition Index (s sep : bytes) : Z := Index_from sep 0 s.

(** Modelled from the spec: the CRC-16/CCITT-FALSE checksum, as
    [crc16.Checksum(data, crc16.MakeTable(crc16.CRC16_CCITT_FALSE))] of
    the package github.com/sigurn/crc16, a dependency, computes it:
    polynomial 0x1021, initial value 0xFFFF, no reflection, no final xor,
    one table lookup per byte, most significant bit first. *)
Definition crc16_poly : Z := 0x1021.

Fixpoint crc16_shift (n : nat) (crc : Z) : Z :=
  match n with
  | O => crc
  | Datatypes.S n' =>
      let bit := negb (Z.land crc 0x8000 =? 0) in
      let crc' := u16 (Z.shiftl crc 1) in
      crc16_shift n' (if bit then Z.lxor crc' crc16_poly else crc')
  end.

Definition crc16_table : list Z :=
  Eval vm_compute in
    map (fun n => crc16_shift 8 (u16 (Z.shiftl (Z.of_nat n) 8))) (seq 0 256).

Definition crc16_step (crc : Z) (d : byte) : Z :=
  Z.lxor (u16 (Z.shiftl crc 8))
         (nth (Z.to_nat (Z.lxor (u8 (Z.shiftr crc 8)) (b2z d))) crc16_table 0).

Definition crc16_update (crc : Z) (data : bytes) : Z :=
  fold_left crc16_step data crc.

Definition Checksum (data : bytes) : Z :=
  Z.lxor (crc16_update 0xFFFF data) 0x0000.


Definition fromHexChar (c : ascii) : option Z :=
  let n := Z.of_nat (nat_of_ascii c) in
  if (48 <=? n) && (n <=? 57) then Some (n - 48)
  else if (97 <=? n) && (n <=? 102) then Some (n - 97 + 10)
  else if (65 <=? n) && (n <=? 70) then Some (n - 65 + 10)
  else None.

(** Modelled from the spec: [hex.DecodeString] of the Go standard library,
    a dependency of the package: two hexadecimal digits of either case
    give one byte; a character that is no digit, or an odd number of
    characters, is an error ([None]). *)
Fixpoint DecodeString (s : string) : option bytes :=
  match s with
  | EmptyString => Some []
  | String _ EmptyString => None
  | String p (String q s') =>
      match fromHexChar p, fromHexChar q, DecodeString s' with
      | Some a, Some b, Some r => Some (z2b (Z.lor (Z.shiftl a 4) b) :: r)
      | _, _, _ => None
      end
  end.

(** ** The firmware entity *)

Inductive FirmwareTargetType : Type :=
| FIRMWARE_TARGET_TYPE_UNKNOWN
| FIRMWARE_TARGET_TYPE_NORDIC
| FIRMWARE_TARGET_TYPE_TI.

Definition target_eqb (a b : FirmwareTargetType) : bool :=
  match a, b with
  | FIRMWARE_TARGET_TYPE_UNKNOWN, FIRMWARE_TARGET_TYPE_UNKNOWN => true
  | FIRMWARE_TARGET_TYPE_NORDIC, FIRMWARE_TARGET_TYPE_NORDIC => true
  | FIRMWARE_TARGET_TYPE_TI, FIRMWARE_TARGET_TYPE_TI => true
  | _, _ => false
  end.

Record Firmware : Type := mkFirmware {
  RawData : option bytes;
  Size : Z;
  StartOffset : Z;
  LastOffset : Z;
  HasBL : bool;
  CRC : Z;
  TailPos : Z;
  Signature : bytes;
  HasSignature : bool;
  TargetType : FirmwareTargetType
}.

(** [&Firmware{}]: every field at its zero value. *)
Definition new_Firmware : Firmware :=
  mkFirmware None 0 0 0 false 0 0 (repeat Byte.x00 256) false
             FIRMWARE_TARGET_TYPE_UNKNOWN.

Definition set_RawData (v : option bytes) (f : Firmware) : Firmware :=
  mkFirmware v (Size f) (StartOffset f) (LastOffset f) (HasBL f) (CRC f)
             (TailPos f) (Signature f) (HasSignature f) (TargetType f).
Definition set_Size (v : Z) (f : Firmware) : Firmware :=
  mkFirmware (RawData f) v (StartOffset f) (LastOffset f) (HasBL f) (CRC f)
             (TailPos f) (Signature f) (HasSignature f) (TargetType f).
Definition set_StartOffset (v : Z) (f : Firmware) : Firmware :=
  mkFirmware (RawData f) (Size f) v (LastOffset f) (HasBL f) (CRC f)
             (TailPos f) (Signature f) (HasSignature f) (TargetType f).
Definition set_LastOffset (v : Z) (f : Firmware) : Firmware :=
  mkFirmware (RawData f) (Size f) (StartOffset f) v (HasBL f) (CRC f)
             (TailPos f) (Signature f) (HasSignature f) (TargetType f).
Definition set_HasBL (v : bool) (f : Firmware) : Firmware :=
  mkFirmware (RawData f) (Size f) (StartOffset f) (LastOffset f) v (CRC f)
             (TailPos f) (Signature f) (HasSignature f) (TargetType f).
Definition set_CRC (v : Z) (f : Firmware) : Firmware :=
  mkFirmware (RawData f) (Size f) (StartOffset f) (LastOffset f) (HasBL f) v
             (TailPos f) (Signature f) (HasSignature f) (TargetType f).
Definition set_TailPos (v : Z) (f : Firmware) : Firmware :=
  mkFirmware (RawData f) (Size f) (StartOffset f) (LastOffset f) (HasBL f)
             (CRC f) v (Signature f) (HasSignature f) (TargetType f).
Definition set_Signature (v : bytes) (f : Firmware) : Firmware :=
  mkFirmware (RawData f) (Size f) (StartOffset f) (LastOffset f) (HasBL f)
             (CRC f) (TailPos f) v (HasSignature f) (TargetType f).
Definition set_HasSignature (v : bool) (f : Firmware) : Firmware :=
  mkFirmware (RawData f) (Size f) (StartOffset f) (LastOffset f) (HasBL f)
             (CRC f) (TailPos f) (Signature f) v (TargetType f).
Definition set_TargetType (v : FirmwareTargetType) (f : Firmware) : Firmware :=
  mkFirmware (RawData f) (Size f) (StartOffset f) (LastOffset f) (HasBL f)
             (CRC f) (TailPos f) (Signature f) (HasSignature f) v.

(** The bytes of [f.RawData]; the nil slice has none. *)
Definition raw (f : Firmware) : bytes :=
  match RawData f with
  | Some s => s
  | None => []
  end.

(** ** The hex record loader *)

(** The blocks of the firmware-data case of [pushRawHexLine]. *)

(** [if f.RawData == nil { f.StartOffset = uint16(addr); f.RawData = make([]byte, 0) }] *)
Definition seed_start (f : Firmware) (addr : Z) : Firmware :=
  match RawData f with
  | None => set_RawData (Some []) (set_StartOffset (u16 addr) f)
  | Some _ => f
  end.

(** The buffer is extended with 0xFF bytes up to [resultsize]. *)
Definition pad_to (f : Firmware) (resultsize : Z) : Firmware :=
  if len (raw f) <? resultsize
  then set_RawData
         (Some (raw f ++ repeat Byte.xff (Z.to_nat (resultsize - len (raw f)))))
         f
  else f.

(** [if uint16(addr) < f.StartOffset { f.StartOffset = uint16(addr) }] *)
Definition track_start (f : Firmware) (addr : Z) : Firmware :=
  if u16 addr <? StartOffset f then set_StartOffset (u16 addr) f else f.

(** [if uint16(resultsize) > f.Size+f.StartOffset { f.Size = ...; f.LastOffset = ... }] *)
Definition track_size (f : Firmware) (resultsize : Z) : Firmware :=
  if u16 resultsize >? u16 (Size f + StartOffset f)
  then
    let f := set_Size (u16 (u16 resultsize - StartOffset f)) f in
    set_LastOffset (u16 (StartOffset f + Size f - 1)) f
  else f.

Definition pushRawHexLine (f : Firmware) (hexline : bytes)
  : outcome (Firmware * option error) :=
  if len hexline <? 4 then Returned (f, Some "invalid"%string)
  else
    length <- index hexline 0 ;;
    h1 <- index hexline 1 ;;
    h2 <- index hexline 2 ;;
    let addr := Z.lor (Z.shiftl (b2z h1) 8) (b2z h2) in
    target <- index hexline 3 ;;
    let resultsize := addr + b2z length in
    data <- slice hexline 4 (u8 (4 + b2z length)) ;;
    if Byte.eqb target Byte.x00 then
      let f := seed_start f addr in
      let f := pad_to f resultsize in
      buf <- copy_window (raw f) addr resultsize data ;;
      let f := set_RawData (Some buf) f in
      let f := track_start f addr in
      let f := track_size f resultsize in
      Returned (f, None)
    else if Byte.eqb target Byte.xfd then
      let f := set_HasSignature true f in
      if resultsize >? 0x100
      then Returned (f, Some "invalid signature data, out of bounds"%string)
      else
        sig <- copy_window (Signature f) addr resultsize data ;;
        Returned (set_Signature sig f, None)
    else Returned (f, Some "invalid"%string).

Definition AddSignature (f : Firmware) (sig : bytes)
  : outcome (Firmware * option error) :=
  if negb (len sig =? 256)
  then Returned (set_HasSignature false f,
                 Some "wrong size of firmware signature"%string)
  else
    s <- copy_window (Signature f) 0 (len (Signature f)) sig ;;
    Returned (set_HasSignature true (set_Signature s f), None).

Definition BaseImage (f : Firmware) : outcome (Firmware * (bytes * option error)) :=
  let img := make (Size f) in
  win <- slice (raw f) (StartOffset f) (u16 (StartOffset f + Size f)) ;;
  Returned (f, (blit img 0 (firstn (List.length img) win), None)).

(** ** The downgrade patcher *)

(** The end marker of a TI image, [FE C0 AD DE]. *)
Definition end_marker : bytes := [Byte.xfe; Byte.xc0; Byte.xad; Byte.xde].

(** The fourteen substitutions, in the order the patcher applies them. *)
Definition downgrade_patches : list (bytes * bytes) :=
  [ ([Byte.x90; Byte.xe4; Byte.x00], [Byte.x90; Byte.xec; Byte.x00]);
    ([Byte.x7a; Byte.x04; Byte.x7b; Byte.xe4], [Byte.x7a; Byte.x04; Byte.x7b; Byte.xec]);
    ([Byte.x90; Byte.xe8; Byte.x00], [Byte.x90; Byte.xf0; Byte.x00]);
    ([Byte.x7a; Byte.x04; Byte.x7b; Byte.xe8], [Byte.x7a; Byte.x04; Byte.x7b; Byte.xf0]);
    ([Byte.x08; Byte.x74; Byte.xe4], [Byte.x08; Byte.x74; Byte.xec]);
    ([Byte.x75; Byte.x0f; Byte.xe8], [Byte.x75; Byte.x0f; Byte.xf0]);
    ([Byte.x79; Byte.x1a], [Byte.x79; Byte.x1c]);
    ([Byte.x7f; Byte.x1a; Byte.x79; Byte.x7f], [Byte.x7f; Byte.x1c; Byte.x79; Byte.x7f]);
    ([Byte.x7f; Byte.x19], [Byte.x7f; Byte.x1b]);
    ([Byte.x79; Byte.x19], [Byte.x79; Byte.x1b]);
    ([Byte.xf2; Byte.x08; Byte.x74; Byte.xe8], [Byte.xf2; Byte.x08; Byte.x74; Byte.xf0]);
    ([Byte.x0f; Byte.xe4; Byte.x22], [Byte.x0f; Byte.xec; Byte.x22]);
    ([Byte.x00; Byte.x7b; Byte.x64], [Byte.x00; Byte.x7b; Byte.x6c]);
    ([Byte.x05; Byte.x79; Byte.x19], [Byte.x05; Byte.x79; Byte.x1b]) ].

(** [patched = bytes.Replace(patched, old, new, -1)] for each substitution
    of [ps] in turn. *)
Definition apply_patches (ps : list (bytes * bytes)) (s : bytes) : bytes :=
  fold_left (fun acc p => Replace acc (fst p) (snd p)) ps s.

Definition BaseImageDowngradeFromBL0302ToBL0301 (f : Firmware)
  : outcome (Firmware * (option bytes * option error)) :=
  if negb (target_eqb (TargetType f) FIRMWARE_TARGET_TYPE_TI)
  then Returned (f, (None,
         Some "error: downgrade only supported for CC2544 firmware"%string))
  else if negb (Size f =? 0x6000)
  then Returned (f, (None,
         Some "can't downgrade an image which hasn't a size of 0x6000"%string))
  else
    let patched := make (u16 (Size f + 0x800)) in
    win <- slice (raw f) (StartOffset f) (u16 (StartOffset f + Size f)) ;;
    let patched := blit patched 0 (firstn (List.length patched) win) in
    patched <- for_range 0 6
                 (fun i p => store p (0x6000 - 6 + i) Byte.xff) patched ;;
    patched <- for_range 0x6000 (len patched)
                 (fun i p => store p i Byte.xff) patched ;;
    let patched := apply_patches downgrade_patches patched in
    patched <- copy_window patched (len patched - 4) (len patched) end_marker ;;
    body <- slice patched 0 (len patched - 6) ;;
    let calculated_crc := Checksum body in
    patched <- store patched (len patched - 6)
                 (z2b (Z.land calculated_crc 0x00ff)) ;;
    patched <- store patched (len patched - 5)
                 (z2b (Z.shiftr calculated_crc 8)) ;;
    Returned (f, (Some patched, None)).

(** ** The format detectors *)

(** The error of a checksum mismatch is given without the two numbers the
    source formats into it. *)
Definition ParseFirmwareTI (f : Firmware) : outcome (Firmware * option error) :=
  assumed_bootloader <- slice (raw f) 0 0x0400 ;;
  v0 <- index assumed_bootloader 0x3f8 ;;
  has_vid <- (if Byte.eqb v0 Byte.x6d
              then v1 <- index assumed_bootloader 0x3f9 ;;
                   Returned (Byte.eqb v1 Byte.x04)
              else Returned false) ;;
  let f :=
    if has_vid : bool
    then set_StartOffset 0x400 (set_HasBL true f)
    else set_StartOffset 0x0000 (set_HasBL false f) in
  rest <- slice (raw f) (StartOffset f) (len (raw f)) ;;
  let pos := Index rest end_marker in
  if pos <? 0
  then Returned (f, Some
         "seems to be no valid Logitech firmware for TI, magic bytes missing"%string)
  else
    let f := set_Size (u16 (u16 pos + 4)) f in
    let f := set_LastOffset (u16 (Size f + StartOffset f - 1)) f in
    let f := set_TailPos (u16 (StartOffset f + Size f - 6)) f in
    hi <- index (raw f) (u16 (TailPos f + 1)) ;;
    lo <- index (raw f) (TailPos f) ;;
    let f := set_CRC (Z.lor (u16 (Z.shiftl (b2z hi) 8)) (b2z lo)) f in
    body <- slice (raw f) (StartOffset f) (u16 (StartOffset f + Size f - 6)) ;;
    let calculated_crc := Checksum body in
    if negb (calculated_crc =? CRC f)
    then Returned (f, Some "Firmware has wrong CRC"%string)
    else Returned (f, None).

(** One candidate size of the Nordic detector: the layout fields are
    written, the stored checksum is read and compared. *)
Definition nordic_candidate (f : Firmware) (last size : Z)
  : outcome (Firmware * bool) :=
  let f := set_StartOffset 0x0000 f in
  let f := set_LastOffset last f in
  let f := set_Size size f in
  hi <- index (raw f) (u16 (Size f - 2)) ;;
  lo <- index (raw f) (u16 (Size f - 1)) ;;
  let f := set_CRC (Z.lor (u16 (Z.shiftl (b2z hi) 8)) (b2z lo)) f in
  body <- slice (raw f) 0 (u16 (Size f - 2)) ;;
  let crc_calc := Checksum body in
  Returned (f, crc_calc =? CRC f).

Definition invalid_crc : option error := Some "No valid firmware image"%string.

Definition ParseFirmwareNordic (f : Firmware) : outcome (Firmware * option error) :=
  has_vid <- (if len (raw f) >? 0x7400
              then v0 <- index (raw f) (0x7400 + 0xbb0) ;;
                   if Byte.eqb v0 Byte.x04
                   then v1 <- index (raw f) (0x7400 + 0xbb1) ;;
                        Returned (Byte.eqb v1 Byte.x6d)
                   else Returned false
              else Returned false) ;;
  let f := set_HasBL has_vid f in
  if len (raw f) <? 0x6400 then Returned (f, invalid_crc)
  else
    r <- nordic_candidate f 0x63ff 0x6400 ;;
    let (f, ok) := r : Firmware * bool in
    if ok then Returned (f, None)
    else if len (raw f) <? 0x6800 then Returned (f, invalid_crc)
    else
      r <- nordic_candidate f 0x67ff 0x6800 ;;
      let (f, ok) := r : Firmware * bool in
      if ok then Returned (f, None)
      else Returned (f, invalid_crc).

(** The classification both parsers end with: the TI detector first, the
    Nordic detector when it fails. *)
Definition classify (f : Firmware) : outcome (option Firmware * option error) :=
  let f := set_TargetType FIRMWARE_TARGET_TYPE_UNKNOWN f in
  r <- ParseFirmwareTI f ;;
  let (f, err) := r : Firmware * option error in
  match err with
  | Some _ =>
      r <- ParseFirmwareNordic f ;;
      let (f, errNordic) := r : Firmware * option error in
      match errNordic with
      | Some _ =>
          Returned (None,
            Some "unsupported firmware format - neither nordic, nor TI"%string)
      | None =>
          Returned (Some (set_TargetType FIRMWARE_TARGET_TYPE_NORDIC f), None)
      end
  | None => Returned (Some (set_TargetType FIRMWARE_TARGET_TYPE_TI f), None)
  end.

Definition ParseFirmwareBin (binblob : bytes)
  : outcome (option Firmware * option error) :=
  let f := set_RawData (Some binblob) new_Firmware in
  classify f.

(** The scanner loop of [ParseFirmwareHex] over the lines of the file:
    the first character of the line is dropped, a line that does not
    decode, is too short or has another record type is skipped, and the
    error of [pushRawHexLine] is not looked at. *)
Fixpoint load_lines (f : Firmware) (lines : list string) : outcome Firmware :=
  match lines with
  | [] => Returned f
  | text :: rest =>
      match text with
      | EmptyString => Panicked
      | String _ line =>
          match DecodeString line with
          | None => load_lines f rest
          | Some hbytes =>
              if (len hbytes <? 4)
                 || (negb (Byte.eqb (nth 3 hbytes Byte.x00) Byte.x00)
                     && negb (Byte.eqb (nth 3 hbytes Byte.x00) Byte.xfd))
              then load_lines f rest
              else
                r <- pushRawHexLine f hbytes ;;
                load_lines (fst r) rest
          end
      end
  end.

(** [f.RawData = f.RawData[f.StartOffset:f.StartOffset+f.Size]] *)
Definition trim (f : Firmware) : outcome Firmware :=
  s <- slice (raw f) (StartOffset f) (u16 (StartOffset f + Size f)) ;;
  Returned (set_RawData (match RawData f with
                         | Some _ => Some s
                         | None => None
                         end) f).

(** The file is given by its lines, as the scanner yields them; opening
    the file is left out. *)
Definition ParseFirmwareHex (lines : list string)
  : outcome (option Firmware * option error) :=
  f <- load_lines new_Firmware lines ;;
  f <- trim f ;;
  classify f.

(** ** Predicates of the specification *)

(** A substitution that keeps the length of the buffer. *)
Definition same_length_patch (p : bytes * bytes) : Prop :=
  fst p <> [] /\ List.length (snd p) = List.length (fst p).

(** The image window [RawData[StartOffset : StartOffset+Size]] exists: the
    16-bit sum does not wrap and the buffer holds the window.  This is the
    invariant of the data model, "rawData length >= startOffset + size". *)
Definition window_ok (f : Firmware) : Prop :=
  0 <= StartOffset f /\ 0 <= Size f
  /\ StartOffset f + Size f < 65536
  /\ StartOffset f + Size f <= len (raw f).

(** What the patcher promises of its output: the length, the marker in the
    last four bytes, and the checksum of everything before the last six
    bytes stored, low byte first, in the two bytes before the marker. *)
Definition patched_image_ok (out : bytes) : Prop :=
  len out = 0x6800
  /\ skipn (Z.to_nat (len out - 4)) out = end_marker
  /\ Checksum (firstn (Z.to_nat (len out - 6)) out)
     = b2z (nth (Z.to_nat (len out - 6)) out Byte.x00)
       + 256 * b2z (nth (Z.to_nat (len out - 5)) out Byte.x00).


(** The fields of a decoded hex record [length, addrHi, addrLo, type,
    data...]. *)
Definition rec_len (h : bytes) : Z := b2z (nth 0 h Byte.x00).
Definition rec_addr (h : bytes) : Z :=
  Z.lor (Z.shiftl (b2z (nth 1 h Byte.x00)) 8) (b2z (nth 2 h Byte.x00)).
Definition rec_type (h : bytes) : byte := nth 3 h Byte.x00.
Definition rec_data (h : bytes) : bytes :=
  firstn (Z.to_nat (rec_len h)) (skipn 4 h).
Definition rec_end (h : bytes) : Z := rec_addr h + rec_len h.

(** A record that carries the data bytes its length field declares.  The
    upper index of [hexline[4 : 4+length]] is computed in a byte, so the
    length is at most 251. *)
Definition record_ok (h : bytes) : Prop :=
  rec_len h <= 251 /\ 4 + rec_len h <= len h.

Definition data_record (h : bytes) : Prop :=
  record_ok h /\ rec_type h = Byte.x00.


(** The records are pushed one after the other, as the scanner loop does
    with the lines it keeps; the error of a record is not looked at. *)
Fixpoint push_all (f : Firmware) (hs : list bytes) : outcome Firmware :=
  match hs with
  | [] => Returned f
  | h :: rest => r <- pushRawHexLine f h ;; push_all (fst r) rest
  end.

(** The buffer after a data record: padded with 0xFF up to the end of the
    record when it was shorter, then the data written at the address. *)
Definition pushed_buffer (buf h : bytes) : bytes :=
  blit (if len buf <? rec_end h
        then buf ++ repeat Byte.xff (Z.to_nat (rec_end h - len buf))
        else buf)
       (rec_addr h) (rec_data h).

(** The entity after a data record. *)
Definition pushed_data (f : Firmware) (h : bytes) : Firmware :=
  let start :=
    match RawData f with
    | None => rec_addr h
    | Some _ => Z.min (rec_addr h) (StartOffset f)
    end in
  let grows := u16 (rec_end h) >? u16 (Size f + start) in
  let size := if grows then u16 (u16 (rec_end h) - start) else Size f in
  let last := if grows then u16 (start + size - 1) else LastOffset f in
  mkFirmware (Some (pushed_buffer (raw f) h)) size start last (HasBL f)
             (CRC f) (TailPos f) (Signature f) (HasSignature f) (TargetType f).


(** Position [i] of the buffer belongs to one of the records. *)
Definition covered (hs : list bytes) (i : Z) : Prop :=
  Exists (fun h => rec_addr h <= i < rec_end h) hs.

(** The largest [address + length] and the smallest address of the
    records. *)
Definition max_end (hs : list bytes) : Z :=
  fold_right (fun h m => Z.max (rec_end h) m) 0 hs.

Definition min_addr (hs : list bytes) : Z :=
  match hs with
  | [] => 0
  | h :: rest => fold_right (fun h m => Z.min (rec_addr h) m) (rec_addr h) rest
  end.

(** The layout fields follow the records: the start is the smallest
    address, the size spans up to the largest end, the last offset closes
    the span, and the trimmed buffer has the length [Size]. *)
Definition tracked_span (hs : list bytes) (f : Firmware) : Prop :=
  StartOffset f = min_addr hs
  /\ Size f = max_end hs - StartOffset f
  /\ LastOffset f = StartOffset f + Size f - 1
  /\ exists t, trim f = Returned t /\ len (raw t) = Size f.

(** The state of the loader between two records when no record starts
    below [a0]: the buffer reaches up to [e], the largest end so far, and
    the layout fields span [a0 .. e). *)
Definition span_inv (a0 e : Z) (f : Firmware) : Prop :=
  (exists b, RawData f = Some b)
  /\ StartOffset f = a0
  /\ Size f = e - a0
  /\ (a0 < e -> LastOffset f = e - 1)
  /\ len (raw f) = e.

(** The layout fields of an entity. *)
Definition layout (f : Firmware) : Z * Z * Z * Z * Z * FirmwareTargetType :=
  (StartOffset f, Size f, LastOffset f, CRC f, TailPos f, TargetType f).


(** The checksum stored, high byte first, in the last two bytes of a
    Nordic image of [size] bytes, and its comparison with the computed
    one. *)
Definition stored_crc_be (s : bytes) (size : Z) : Z :=
  Z.lor (u16 (Z.shiftl (b2z (nth (Z.to_nat (size - 2)) s Byte.x00)) 8))
        (b2z (nth (Z.to_nat (size - 1)) s Byte.x00)).

Definition nordic_crc_ok (s : bytes) (size : Z) : bool :=
  Checksum (firstn (Z.to_nat (size - 2)) s) =? stored_crc_be s size.

(** A buffer the Nordic detector accepts: one of the two candidate sizes
    is reached and validates. *)
Definition nordic_valid (s : bytes) : bool :=
  (0x6400 <=? len s)
  && (nordic_crc_ok s 0x6400 || ((0x6800 <=? len s) && nordic_crc_ok s 0x6800)).

(** The vendor bytes 04 6D at 0x7400 + 0xBB0, in a buffer that holds
    them. *)
Definition nordic_vid (s : bytes) : bool :=
  (0x7400 + 0xbb2 <=? len s)
  && Byte.eqb (nth (Z.to_nat (0x7400 + 0xbb0)) s Byte.x00) Byte.x04
  && Byte.eqb (nth (Z.to_nat (0x7400 + 0xbb1)) s Byte.x00) Byte.x6d.

(** The flag as the specification words it: the length has to exceed
    0x7400 + 0xBB2. *)
Definition nordic_vid_as_specified (s : bytes) : bool :=
  (0x7400 + 0xbb2 <? len s)
  && Byte.eqb (nth (Z.to_nat (0x7400 + 0xbb0)) s Byte.x00) Byte.x04
  && Byte.eqb (nth (Z.to_nat (0x7400 + 0xbb1)) s Byte.x00) Byte.x6d.

(** The layout fields of the entity a parser returned, if it returned
    one. *)
Definition layout_of_result (r : outcome (option Firmware * option error))
  : option (Z * Z * Z * Z * Z * FirmwareTargetType) :=
  match r with
  | Returned (Some f, None) => Some (layout f)
  | _ => None
  end.

(** ** The substitutions as one-byte rewrites in a context *)

(** Each substitution of the patcher keeps the bytes around one position
    ([r_pre] before it, [r_post] after it) and rewrites the byte [r_x] at
    that position to [r_y]. *)
Record rule : Type := mkRule {
  r_pre : bytes;
  r_x : byte;
  r_y : byte;
  r_post : bytes
}.

Definition rule_old (r : rule) : bytes := r_pre r ++ r_x r :: r_post r.
Definition rule_new (r : rule) : bytes := r_pre r ++ r_y r :: r_post r.
Definition rule_patch (r : rule) : bytes * bytes := (rule_old r, rule_new r).

Definition downgrade_rules : list rule :=
  [ mkRule [Byte.x90] Byte.xe4 Byte.xec [Byte.x00];
    mkRule [Byte.x7a; Byte.x04; Byte.x7b] Byte.xe4 Byte.xec [];
    mkRule [Byte.x90] Byte.xe8 Byte.xf0 [Byte.x00];
    mkRule [Byte.x7a; Byte.x04; Byte.x7b] Byte.xe8 Byte.xf0 [];
    mkRule [Byte.x08; Byte.x74] Byte.xe4 Byte.xec [];
    mkRule [Byte.x75; Byte.x0f] Byte.xe8 Byte.xf0 [];
    mkRule [Byte.x79] Byte.x1a Byte.x1c [];
    mkRule [Byte.x7f] Byte.x1a Byte.x1c [Byte.x79; Byte.x7f];
    mkRule [Byte.x7f] Byte.x19 Byte.x1b [];
    mkRule [Byte.x79] Byte.x19 Byte.x1b [];
    mkRule [Byte.xf2; Byte.x08; Byte.x74] Byte.xe8 Byte.xf0 [];
    mkRule [Byte.x0f] Byte.xe4 Byte.xec [Byte.x22];
    mkRule [Byte.x00; Byte.x7b] Byte.x64 Byte.x6c [];
    mkRule [Byte.x05; Byte.x79] Byte.x19 Byte.x1b [] ].

(** [Replace] with the substitution of a rule. *)
Definition apply_rule (r : rule) (s : bytes) : bytes :=
  Replace s (rule_old r) (rule_new r).

(** The positions of [s] at which [old] occurs. *)
Fixpoint occs (old s : bytes) : list bool :=
  match s with
  | [] => []
  | _ :: s' => is_prefix old s :: occs old s'
  end.

(** The occurrences [Replace] replaces: from left to right, an occurrence
    that overlaps the one replaced last is passed over. *)
Fixpoint sel (n skip : nat) (os : list bool) : list bool :=
  match os with
  | [] => []
  | o :: os' =>
      match skip with
      | Datatypes.S k => false :: sel n k os'
      | O => if o then true :: sel n (Nat.pred n) os' else false :: sel n O os'
      end
  end.

Definition starts (old s : bytes) : list bool :=
  sel (List.length old) O (occs old s).

(** Position [j] is the rewritten position of an instance that starts
    [k] bytes before it. *)
Definition fired (ms : list bool) (k j : nat) : bool :=
  (k <=? j)%nat && nth (j - k) ms false.

(** The byte of a rule fires at position [j] of [s]. *)
Definition fires (r : rule) (s : bytes) (j : nat) : bool :=
  fired (starts (rule_old r) s) (List.length (r_pre r)) j.

(** [s] with the byte [y] at the positions [f] selects. *)
Definition poke (y : byte) (f : nat -> bool) (s : bytes) : bytes :=
  map (fun j => if f j then y else nth j s Byte.x00) (seq 0 (List.length s)).

(** No occurrence of [old] can overlap another one. *)
Definition borderless_b (old : bytes) : bool :=
  forallb (fun d => negb (is_prefix (skipn d old) old))
          (seq 1 (Nat.pred (List.length old))).

(** The byte before the rewritten position differs in the two rules. *)
Definition last_differs (p q : rule) : bool :=
  match rev (r_pre p), rev (r_pre q) with
  | a :: _, b :: _ => negb (Byte.eqb a b)
  | _, _ => false
  end.

(** The context of [p] holds neither the byte [q] rewrites nor the byte
    it writes. *)
Definition stable_b (p q : rule) : bool :=
  forallb (fun c => negb (Byte.eqb c (r_x q)) && negb (Byte.eqb c (r_y q)))
          (r_pre p ++ r_post p).

(** What makes [apply_rule q] harmless to the occurrences of [p]. *)
Definition compat_b (p q : rule) : bool :=
  stable_b p q
  && negb (Byte.eqb (r_x p) (r_y q))
  && (borderless_b (rule_old p)
      || negb (Byte.eqb (r_x p) (r_x q)) || last_differs p q)
  && (negb (Byte.eqb (r_x p) (r_x q)) || Byte.eqb (r_y p) (r_y q)).

Fixpoint ord_pairs_b {A : Type} (R : A -> A -> bool) (l : list A) : bool :=
  match l with
  | [] => true
  | a :: l' => forallb (R a) l' && ord_pairs_b R l'
  end.

(** Two substitutions that can be applied in either order. *)
Definition commute_patch (p q : bytes * bytes) : Prop :=
  forall s : bytes,
    Replace (Replace s (fst p) (snd p)) (fst q) (snd q)
    = Replace (Replace s (fst q) (snd q)) (fst p) (snd p).

(** Patterns whose occurrences never overlap, in any buffer. *)
Definition overlap_free (patterns : list bytes) : Prop :=
  forall (p q s : bytes) (i j : nat),
    In p patterns -> In q patterns -> p <> q ->
    is_prefix p (skipn i s) = true ->
    is_prefix q (skipn j s) = true ->
    (i + List.length p <= j \/ j + List.length q <= i)%nat.

(** ** What the detectors accept *)

(** The window [RawData[StartOffset : StartOffset+Size]] of the buffer. *)
Definition image_window (f : Firmware) : bytes :=
  firstn (Z.to_nat (Size f)) (skipn (Z.to_nat (StartOffset f)) (raw f)).

(** The vendor bytes 6D 04 at 0x3F8, by which the TI detector takes a
    bootloader to be prepended, and the start offset it derives. *)
Definition ti_vid (s : bytes) : bool :=
  Byte.eqb (nth (Z.to_nat 0x3f8) s Byte.x00) Byte.x6d
  && Byte.eqb (nth (Z.to_nat 0x3f9) s Byte.x00) Byte.x04.

Definition ti_start (s : bytes) : Z := if ti_vid s then 0x400 else 0x0000.

(** The position of the first end marker behind the start offset. *)
Definition ti_marker (s : bytes) : Z :=
  Index (skipn (Z.to_nat (ti_start s)) s) end_marker.

(** The checksum stored, low byte first, in the two bytes before the
    marker found at [pos]. *)
Definition stored_crc_le (s : bytes) (pos : Z) : Z :=
  256 * b2z (nth (Z.to_nat (ti_start s + pos - 1)) s Byte.x00)
  + b2z (nth (Z.to_nat (ti_start s + pos - 2)) s Byte.x00).

(** The entity after the TI detector found the marker at [pos]. *)
Definition ti_detected (f : Firmware) (pos : Z) : Firmware :=
  mkFirmware (RawData f) (pos + 4) (ti_start (raw f))
             (ti_start (raw f) + pos + 3) (ti_vid (raw f))
             (stored_crc_le (raw f) pos) (ti_start (raw f) + pos - 2)
             (Signature f) (HasSignature f) (TargetType f).

(** The entity after the TI detector found no marker. *)
Definition ti_undetected (f : Firmware) : Firmware :=
  set_StartOffset (ti_start (raw f)) (set_HasBL (ti_vid (raw f)) f).

(** A well-formed TI image: the end marker in its last four bytes and
    nowhere before, and in front of the marker the checksum, low byte
    first, of the bytes before the checksum. *)
Definition ti_image_ok (img : bytes) : Prop :=
  6 <= len img
  /\ Index img end_marker = len img - 4
  /\ skipn (Z.to_nat (len img - 4)) img = end_marker
  /\ Checksum (firstn (Z.to_nat (len img - 6)) img)
     = b2z (nth (Z.to_nat (len img - 6)) img Byte.x00)
       + 256 * b2z (nth (Z.to_nat (len img - 5)) img Byte.x00).

(** ** What the loader leaves in the buffer *)

(** The byte the records write at position [i]: that of the last record
    whose range holds [i], if there is one. *)
Fixpoint written_at (hs : list bytes) (i : Z) : option byte :=
  match hs with
  | [] => None
  | h :: rest =>
      match written_at rest i with
      | Some b => Some b
      | None =>
          if (rec_addr h <=? i) && (i <? rec_end h)
          then Some (nth (Z.to_nat (i - rec_addr h)) (rec_data h) Byte.x00)
          else None
      end
  end.




(** ** Sample inputs *)

(** A TI entity holding a 0x6000-byte image of zero bytes. *)
Definition sample_ti_6000 : Firmware :=
  mkFirmware (Some (repeat Byte.x00 (Z.to_nat 0x6000))) 0x6000 0 0x5fff false 0
             0x5ffa (repeat Byte.x00 256) false FIRMWARE_TARGET_TYPE_TI.

(** The same buffer, taken for an already patched image of 0x6800 bytes. *)
Definition sample_ti_6800 : Firmware :=
  mkFirmware (Some (repeat Byte.x00 (Z.to_nat 0x6800))) 0x6800 0 0x67ff false 0
             0x67fa (repeat Byte.x00 256) false FIRMWARE_TARGET_TYPE_TI.

(** A data record of 0x20 bytes at address 0xFFF0, with its trailing
    line checksum: it ends at 0x10010, beyond the 16-bit range. *)
Definition wrap_record : bytes :=
  [Byte.x20; Byte.xff; Byte.xf0; Byte.x00] ++ repeat Byte.xaa 32 ++ [Byte.x00].

(** Two data records of four bytes, at 0x0010 and at 0x0000. *)
Definition high_record : bytes :=
  [Byte.x04; Byte.x00; Byte.x10; Byte.x00;
   Byte.xaa; Byte.xbb; Byte.xcc; Byte.xdd; Byte.x00].
Definition low_record : bytes :=
  [Byte.x04; Byte.x00; Byte.x00; Byte.x00;
   Byte.x11; Byte.x22; Byte.x33; Byte.x44; Byte.x00].

(** A minimal TI image without bootloader: 0x400 zero bytes, their
    checksum (low byte first) and the end marker. *)
Definition ti_image : bytes :=
  let body := repeat Byte.x00 (Z.to_nat 0x400) in
  let crc := Checksum body in
  body ++ [z2b (Z.land crc 0x00ff); z2b (Z.shiftr crc 8)] ++ end_marker.


Definition hex_digit (n : Z) : ascii :=
  ascii_of_nat (Z.to_nat (if n <? 10 then 48 + n else 65 + (n - 10))).

Fixpoint hex_of_bytes (s : bytes) : string :=
  match s with
  | [] => EmptyString
  | b :: s' =>
      String (hex_digit (b2z b / 16))
             (String (hex_digit (b2z b mod 16)) (hex_of_bytes s'))
  end.

(** A line of the hex file: the start code and the record in hexadecimal. *)
Definition hex_line (h : bytes) : string := String ":"%char (hex_of_bytes h).




(** A buffer that starts with the end marker. *)
Definition marker_first_blob : bytes :=
  end_marker ++ repeat Byte.x00 (Z.to_nat 0x400).

(** 0x7401 zero bytes: longer than 0x7400, shorter than 0x7400 + 0xBB2. *)
Definition zeros_7401 : bytes := repeat Byte.x00 (Z.to_nat 0x7401).

(** The marker at offset 0x10 and no valid checksum in front of it. *)
Definition bad_crc_blob : bytes :=
  repeat Byte.x00 (Z.to_nat 0x10) ++ end_marker ++ repeat Byte.x00 (Z.to_nat 0x400).

(** A Nordic image of 0x6400 bytes, valid checksum at its end, that holds
    the TI end marker at offset 0x10. *)
Definition nordic_with_marker : bytes :=
  let body := repeat Byte.x00 (Z.to_nat 0x10) ++ end_marker
              ++ repeat Byte.x00 (Z.to_nat (0x6400 - 2 - 0x14)) in
  let crc := Checksum body in
  body ++ [z2b (Z.shiftr crc 8); z2b crc].

(** 0x7400 + 0xBB2 bytes exactly, the last two being 04 6D. *)
Definition vid_at_end_blob : bytes :=
  repeat Byte.x00 (Z.to_nat (0x7400 + 0xbb0)) ++ [Byte.x04; Byte.x6d].

(** Fresh entities holding the sample buffers. *)
Definition entity_of (blob : bytes) : Firmware :=
  set_RawData (Some blob) new_Firmware.

(** A data record of two bytes at address 0x0002, over the last two bytes
    of [low_record]. *)
Definition over_record : bytes :=
  [Byte.x02; Byte.x00; Byte.x02; Byte.x00; Byte.xee; Byte.xff; Byte.x00].

(** * Properties *)

(** ** Outcomes *)

Lemma bind_Returned {A B : Type} (a : A) (k : A -> outcome B) :
  bind (Returned a) k = k a.
Proof. reflexivity. Qed.

(** A returned step is passed on to the rest of the function. *)
Ltac ret := rewrite bind_Returned; cbv beta.

Lemma bind_inv {A B : Type} (m : outcome A) (k : A -> outcome B) (r : B) :
  bind m k = Returned r -> exists a, m = Returned a /\ k a = Returned r.
Proof.
  destruct m as [a|]; simpl; [eauto | discriminate].
Qed.

(** A function that returned went through each of its steps. *)
Ltac bind_inv H :=
  let a := fresh "a" in
  let E := fresh "E" in
  apply bind_inv in H; destruct H as (a & E & H); cbv beta in H.

(** The fields of an entity built by the setters. *)
Ltac fields :=
  cbv [set_RawData set_Size set_StartOffset set_LastOffset set_HasBL set_CRC
       set_TailPos set_Signature set_HasSignature set_TargetType
       RawData Size StartOffset LastOffset HasBL CRC TailPos Signature
       HasSignature TargetType].

(** ** Bytes, lengths and slices *)

Lemma b2z_range (b : byte) : 0 <= b2z b < 256.
Proof.
  unfold b2z. pose proof (Byte.to_N_bounded b). lia.
Qed.

Lemma b2z_z2b (z : Z) : b2z (z2b z) = z mod 256.
Proof.
  unfold b2z, z2b.
  pose proof (Z.mod_pos_bound z 256 ltac:(lia)) as Hr.
  destruct (Byte.of_N (Z.to_N (z mod 256))) as [b|] eqn:E.
  - apply Byte.to_of_N in E. rewrite E. lia.
  - apply Byte.of_N_None_iff in E. lia.
Qed.

Lemma byte_eqb_eq (a b : byte) : Byte.eqb a b = true <-> a = b.
Proof.
  split; [apply Byte.byte_dec_bl | apply Byte.byte_dec_lb].
Qed.

Lemma byte_eqb_refl (a : byte) : Byte.eqb a a = true.
Proof. now apply byte_eqb_eq. Qed.

Lemma byte_eqb_neq (a b : byte) : Byte.eqb a b = false <-> a <> b.
Proof.
  rewrite <- byte_eqb_eq. destruct (Byte.eqb a b); intuition congruence.
Qed.

Lemma len_nonneg {A : Type} (s : list A) : 0 <= len s.
Proof. unfold len. lia. Qed.

Lemma len_app {A : Type} (s t : list A) : len (s ++ t) = len s + len t.
Proof. unfold len. rewrite length_app. lia. Qed.

Lemma len_repeat {A : Type} (x : A) (n : nat) : len (repeat x n) = Z.of_nat n.
Proof. unfold len. now rewrite repeat_length. Qed.

Lemma len_make (n : Z) : 0 <= n -> len (make n) = n.
Proof. intros H. unfold make. rewrite len_repeat. lia. Qed.

Lemma slice_ok (s : bytes) (lo hi : Z) :
  0 <= lo <= hi -> hi <= len s ->
  slice s lo hi
  = Returned (firstn (Z.to_nat (hi - lo)) (skipn (Z.to_nat lo) s)).
Proof.
  intros H1 H2. unfold slice.
  destruct (Z.leb_spec 0 lo); [|lia].
  destruct (Z.leb_spec lo hi); [|lia].
  destruct (Z.leb_spec hi (len s)); [|lia].
  reflexivity.
Qed.

Lemma slice_panics (s : bytes) (lo hi : Z) :
  lo < 0 \/ hi < lo \/ len s < hi -> slice s lo hi = Panicked.
Proof.
  intros H. unfold slice.
  destruct (Z.leb_spec 0 lo); simpl; [|reflexivity].
  destruct (Z.leb_spec lo hi); simpl; [|reflexivity].
  destruct (Z.leb_spec hi (len s)); simpl; [lia|reflexivity].
Qed.

Lemma slice_length (s w : bytes) (lo hi : Z) :
  slice s lo hi = Returned w -> len w = hi - lo /\ 0 <= lo <= hi /\ hi <= len s.
Proof.
  unfold slice.
  destruct (Z.leb_spec 0 lo); simpl; [|discriminate].
  destruct (Z.leb_spec lo hi); simpl; [|discriminate].
  destruct (Z.leb_spec hi (len s)); simpl; [|discriminate].
  intros E. injection E as <-. unfold len in *.
  rewrite length_firstn, length_skipn. lia.
Qed.

Lemma index_ok (s : bytes) (i : Z) :
  0 <= i < len s -> index s i = Returned (nth (Z.to_nat i) s Byte.x00).
Proof.
  intros H. unfold index.
  destruct (Z.leb_spec 0 i); [|lia].
  destruct (Z.ltb_spec i (len s)); [|lia].
  reflexivity.
Qed.

Lemma index_panics (s : bytes) (i : Z) :
  i < 0 \/ len s <= i -> index s i = Panicked.
Proof.
  intros H. unfold index.
  destruct (Z.leb_spec 0 i); simpl; [|reflexivity].
  destruct (Z.ltb_spec i (len s)); simpl; [lia|reflexivity].
Qed.

Lemma blit_length (dst src : bytes) (off : Z) :
  0 <= off -> off + len src <= len dst ->
  len (blit dst off src) = len dst.
Proof.
  unfold blit, len. intros H0 H.
  rewrite !length_app, length_firstn, length_skipn. lia.
Qed.

Lemma blit_firstn (dst src : bytes) (off : Z) (n : nat) :
  (n <= Z.to_nat off)%nat -> 0 <= off <= len dst ->
  firstn n (blit dst off src) = firstn n dst.
Proof.
  unfold blit, len. intros Hn H.
  rewrite firstn_app, firstn_firstn.
  rewrite length_firstn.
  replace (n - Nat.min (Z.to_nat off) (List.length dst))%nat with O by lia.
  simpl. rewrite app_nil_r. f_equal. lia.
Qed.

Lemma blit_skipn (dst src : bytes) (off : Z) (n : nat) :
  0 <= off -> off + len src <= len dst ->
  (Z.to_nat off + List.length src <= n)%nat ->
  skipn n (blit dst off src) = skipn n dst.
Proof.
  unfold blit, len. intros H0 H Hn.
  rewrite app_assoc, skipn_app.
  rewrite length_app, length_firstn.
  rewrite skipn_all2 by (rewrite length_app, length_firstn; lia).
  simpl. rewrite skipn_skipn. f_equal. lia.
Qed.

Lemma blit_tail (dst src : bytes) (off : Z) :
  0 <= off -> off + len src = len dst ->
  skipn (Z.to_nat off) (blit dst off src) = src.
Proof.
  unfold blit, len. intros H0 H.
  rewrite skipn_app, length_firstn.
  rewrite skipn_all2 by (rewrite length_firstn; lia).
  replace (Z.to_nat off - Nat.min (Z.to_nat off) (List.length dst))%nat
    with O by lia.
  simpl. rewrite skipn_all2 by lia. apply app_nil_r.
Qed.

Lemma blit_nth_in (dst src : bytes) (off : Z) (i : nat) (d : byte) :
  0 <= off <= len dst -> (i < List.length src)%nat ->
  nth (Z.to_nat off + i) (blit dst off src) d = nth i src d.
Proof.
  unfold blit, len. intros H Hi.
  rewrite app_nth2; rewrite length_firstn; [|lia].
  replace (Z.to_nat off + i - Nat.min (Z.to_nat off) (List.length dst))%nat
    with i by lia.
  now rewrite app_nth1.
Qed.

Lemma blit_nth_out (dst src : bytes) (off : Z) (i : nat) (d : byte) :
  0 <= off -> off + len src <= len dst ->
  (i < Z.to_nat off \/ Z.to_nat off + List.length src <= i)%nat ->
  nth i (blit dst off src) d = nth i dst d.
Proof.
  unfold blit, len. intros H0 H Hi.
  destruct Hi as [Hi|Hi].
  - rewrite app_nth1 by (rewrite length_firstn; lia).
    rewrite <- (firstn_skipn (Z.to_nat off) dst) at 2.
    rewrite app_nth1 by (rewrite length_firstn; lia). reflexivity.
  - rewrite app_assoc, app_nth2; rewrite length_app, length_firstn; [|lia].
    rewrite <- (firstn_skipn (Z.to_nat off + List.length src) dst) at 3.
    rewrite app_nth2; rewrite length_firstn; [|lia].
    f_equal. lia.
Qed.

Lemma store_ok (s : bytes) (i : Z) (b : byte) :
  0 <= i < len s -> store s i b = Returned (blit s i [b]).
Proof.
  intros H. unfold store.
  destruct (Z.leb_spec 0 i); [|lia].
  destruct (Z.ltb_spec i (len s)); [|lia].
  reflexivity.
Qed.

(** ** Library functions: lengths and ranges *)

Lemma is_prefix_length (p s : bytes) :
  is_prefix p s = true -> (List.length p <= List.length s)%nat.
Proof.
  revert s. induction p as [|a p IH]; intros [|b s]; simpl; intros H;
    try lia; try discriminate.
  apply andb_prop in H as [_ H]. apply IH in H. lia.
Qed.

Lemma replace_from_length (old new : bytes) :
  old <> [] -> List.length new = List.length old ->
  forall (s : bytes) (k : nat),
    (k <= List.length s)%nat ->
    List.length (replace_from old new k s) = (List.length s - k)%nat.
Proof.
  intros Hne Hlen s. induction s as [|b s IH]; intros k Hk; simpl in *.
  - reflexivity.
  - destruct k as [|k].
    + destruct (is_prefix old (b :: s)) eqn:E.
      * apply is_prefix_length in E. simpl in E.
        destruct old as [|o old]; [congruence|]. simpl in *.
        rewrite length_app, IH by lia. lia.
      * simpl. rewrite IH by lia. lia.
    + rewrite IH by lia. lia.
Qed.

Lemma Replace_length (s old new : bytes) :
  old <> [] -> List.length new = List.length old ->
  List.length (Replace s old new) = List.length s.
Proof.
  intros Hne Hlen. unfold Replace.
  rewrite replace_from_length by (auto; lia). lia.
Qed.

Lemma apply_patches_length (ps : list (bytes * bytes)) :
  Forall same_length_patch ps ->
  forall s : bytes, List.length (apply_patches ps s) = List.length s.
Proof.
  unfold apply_patches.
  induction 1 as [|p ps [Hne Hlen] _ IH]; intros s; simpl.
  - reflexivity.
  - rewrite IH. now apply Replace_length.
Qed.

Lemma downgrade_patches_same_length : Forall same_length_patch downgrade_patches.
Proof.
  unfold downgrade_patches.
  repeat (constructor; [split; [discriminate | reflexivity]|]).
  constructor.
Qed.

Lemma lxor_u16_range (a b : Z) :
  0 <= a < 65536 -> 0 <= b < 65536 -> 0 <= Z.lxor a b < 65536.
Proof.
  intros Ha Hb.
  assert (H0 : 0 <= Z.lxor a b) by (apply Z.lxor_nonneg; lia).
  split; [exact H0|].
  destruct (Z.eq_dec (Z.lxor a b) 0) as [E|E]; [lia|].
  change 65536 with (2 ^ 16).
  apply Z.log2_lt_pow2; [lia|].
  pose proof (Z.log2_lxor a b ltac:(lia) ltac:(lia)) as Hl.
  assert (Hla : Z.log2 a < 16).
  { destruct (Z.eq_dec a 0) as [->|]; [simpl; lia|].
    apply Z.log2_lt_pow2; simpl; lia. }
  assert (Hlb : Z.log2 b < 16).
  { destruct (Z.eq_dec b 0) as [->|]; [simpl; lia|].
    apply Z.log2_lt_pow2; simpl; lia. }
  lia.
Qed.

Lemma u16_range (z : Z) : 0 <= u16 z < 65536.
Proof. unfold u16. apply Z.mod_pos_bound. lia. Qed.

Lemma u16_small (z : Z) : 0 <= z < 65536 -> u16 z = z.
Proof. unfold u16. intros H. now apply Z.mod_small. Qed.

Lemma crc16_table_range (i : nat) : 0 <= nth i crc16_table 0 < 65536.
Proof.
  assert (H : forallb (fun x => (0 <=? x) && (x <? 65536)) crc16_table = true)
    by (vm_compute; reflexivity).
  rewrite forallb_forall in H.
  destruct (Nat.lt_ge_cases i (List.length crc16_table)) as [Hi|Hi].
  - specialize (H _ (nth_In crc16_table 0 Hi)). lia.
  - rewrite nth_overflow by exact Hi. lia.
Qed.

Lemma crc16_step_range (crc : Z) (d : byte) : 0 <= crc16_step crc d < 65536.
Proof.
  unfold crc16_step.
  apply lxor_u16_range; [apply u16_range | apply crc16_table_range].
Qed.

Lemma crc16_update_range (data : bytes) :
  forall crc, 0 <= crc < 65536 -> 0 <= crc16_update crc data < 65536.
Proof.
  unfold crc16_update.
  induction data as [|d data IH]; intros crc H; simpl.
  - exact H.
  - apply IH, crc16_step_range.
Qed.

Lemma Checksum_range (data : bytes) : 0 <= Checksum data < 65536.
Proof.
  unfold Checksum. rewrite Z.lxor_0_r. apply crc16_update_range. lia.
Qed.

(** The two bytes written in front of the marker spell the checksum,
    low byte first. *)
Lemma crc_bytes_little_endian (crc : Z) :
  0 <= crc < 65536 ->
  b2z (z2b (Z.land crc 0x00ff)) + 256 * b2z (z2b (Z.shiftr crc 8)) = crc.
Proof.
  intros H. rewrite !b2z_z2b.
  change 0x00ff with (Z.ones 8). rewrite Z.land_ones by lia.
  rewrite Z.shiftr_div_pow2 by lia.
  change (2 ^ 8) with 256.
  rewrite Z.mod_mod by lia.
  rewrite (Z.mod_small (crc / 256)).
  - pose proof (Z.div_mod crc 256 ltac:(lia)). lia.
  - split; [apply Z.div_pos; lia|].
    apply Z.div_lt_upper_bound; lia.
Qed.

(** ** Loops of stores *)

Lemma for_loop_store (g : Z -> Z) (b : byte) (n : nat) :
  forall (i : Z) (s : bytes),
    (forall k, i <= k < i + Z.of_nat n -> 0 <= g k < len s) ->
    exists s', for_loop n i (fun j p => store p (g j) b) s = Returned s'
               /\ len s' = len s.
Proof.
  induction n as [|n IH]; intros i s H; simpl.
  - eauto.
  - rewrite store_ok by (apply H; lia). simpl.
    assert (Hl : len (blit s (g i) [b]) = len s).
    { apply blit_length; specialize (H i ltac:(lia)); unfold len in *; simpl; lia. }
    destruct (IH (i + 1) (blit s (g i) [b])) as (s' & E & L).
    + intros k Hk. rewrite Hl. apply H. lia.
    + exists s'. split; [exact E | congruence].
Qed.

(** ** The downgrade patcher *)

Lemma target_eqb_eq (a b : FirmwareTargetType) : target_eqb a b = true <-> a = b.
Proof. destruct a, b; simpl; split; congruence. Qed.

Lemma len_firstn_le (s : bytes) (n : nat) : len (firstn n s) <= Z.of_nat n.
Proof. unfold len. rewrite length_firstn. lia. Qed.

Lemma downgrade_returns (f : Firmware) :
  TargetType f = FIRMWARE_TARGET_TYPE_TI ->
  Size f = 0x6000 ->
  window_ok f ->
  exists out,
    BaseImageDowngradeFromBL0302ToBL0301 f = Returned (f, (Some out, None))
    /\ patched_image_ok out.
Proof.
  intros HT HS (H0 & _ & Hw & Hl).
  unfold BaseImageDowngradeFromBL0302ToBL0301.
  rewrite HT, HS in *.
  change (negb (target_eqb FIRMWARE_TARGET_TYPE_TI FIRMWARE_TARGET_TYPE_TI))
    with false.
  change (negb (0x6000 =? 0x6000)) with false.
  cbv iota zeta.
  change (u16 (0x6000 + 0x800)) with 0x6800.
  rewrite (u16_small (StartOffset f + 0x6000)) by lia.
  rewrite slice_ok by lia. ret.
  set (win := firstn _ (skipn _ (raw f))).
  set (p1 := blit (make 0x6800) 0 _).
  assert (L1 : len p1 = 0x6800).
  { unfold p1. rewrite blit_length; [apply len_make; lia|lia|].
    rewrite len_make by lia.
    pose proof (len_firstn_le win (List.length (make 0x6800))) as Hf.
    fold (len (make 0x6800)) in Hf. rewrite len_make in Hf by lia. lia. }
  unfold for_range.
  destruct (for_loop_store (fun i => 0x6000 - 6 + i) Byte.xff
              (Z.to_nat (6 - 0)) 0 p1) as (p2 & E2 & L2).
  { intros k Hk. rewrite L1. lia. }
  rewrite E2. ret. rewrite L1 in L2.
  destruct (for_loop_store (fun i => i) Byte.xff
              (Z.to_nat (len p2 - 0x6000)) 0x6000 p2) as (p3 & E3 & L3).
  { intros k Hk. rewrite L2 in *. lia. }
  rewrite E3. ret. rewrite L2 in L3.
  set (p4 := apply_patches downgrade_patches p3).
  assert (L4 : len p4 = 0x6800).
  { unfold len, p4. rewrite apply_patches_length; [exact L3|].
    apply downgrade_patches_same_length. }
  assert (Lm : len end_marker = 4) by reflexivity.
  unfold copy_window. rewrite L4.
  rewrite slice_ok by (rewrite ?L4; lia). ret. ret.
  set (p5 := blit p4 _ _).
  assert (E5 : p5 = blit p4 (0x6800 - 4) end_marker).
  { unfold p5. f_equal. apply firstn_all2.
    rewrite length_firstn, length_skipn.
    unfold len in L4, Lm. lia. }
  assert (L5 : len p5 = 0x6800).
  { rewrite E5, blit_length; [exact L4|lia|]. rewrite L4, Lm. lia. }
  rewrite L5. rewrite slice_ok by (rewrite ?L5; lia). ret.
  set (body := firstn _ (skipn _ p5)).
  set (crc := Checksum body).
  assert (L1b : forall b : byte, len [b] = 1) by reflexivity.
  rewrite store_ok by lia. ret.
  set (p6 := blit p5 _ _).
  assert (L6 : len p6 = 0x6800).
  { unfold p6. rewrite blit_length; [exact L5|lia|]. rewrite L5, L1b. lia. }
  rewrite L6. rewrite store_ok by lia. ret.
  set (p7 := blit p6 _ _).
  assert (L7 : len p7 = 0x6800).
  { unfold p7. rewrite blit_length; [exact L6|lia|]. rewrite L6, L1b. lia. }
  exists p7. split; [reflexivity|].
  unfold patched_image_ok. rewrite L7. split; [reflexivity|]. split.
  - unfold p7.
    rewrite blit_skipn
      by (rewrite ?L6, ?L1b; try lia; cbn [List.length]; lia).
    unfold p6.
    rewrite blit_skipn
      by (rewrite ?L5, ?L1b; try lia; cbn [List.length]; lia).
    rewrite E5.
    apply blit_tail; [lia|]. rewrite L4, Lm. lia.
  - assert (Hbody : firstn (Z.to_nat (0x6800 - 6)) p7 = body).
    { unfold p7. rewrite blit_firstn by (rewrite ?L6; lia).
      unfold p6. rewrite blit_firstn by (rewrite ?L5; lia).
      unfold body. rewrite Z.sub_0_r. reflexivity. }
    rewrite Hbody. fold crc.
    assert (Hlo : nth (Z.to_nat (0x6800 - 6)) p7 Byte.x00
                  = z2b (Z.land crc 0x00ff)).
    { unfold p7.
      rewrite blit_nth_out
        by (rewrite ?L6, ?L1b; try lia; cbn [List.length]; lia).
      unfold p6.
      replace (Z.to_nat (0x6800 - 6)) with (Z.to_nat (0x6800 - 6) + 0)%nat by lia.
      rewrite blit_nth_in by (rewrite ?L5; cbn [List.length]; lia). reflexivity. }
    assert (Hhi : nth (Z.to_nat (0x6800 - 5)) p7 Byte.x00
                  = z2b (Z.shiftr crc 8)).
    { unfold p7.
      replace (Z.to_nat (0x6800 - 5)) with (Z.to_nat (0x6800 - 5) + 0)%nat by lia.
      rewrite blit_nth_in by (rewrite ?L6; cbn [List.length]; lia). reflexivity. }
    rewrite Hlo, Hhi.
    symmetry. apply crc_bytes_little_endian, Checksum_range.
Qed.

(** C1. A TI entity of size 0x6000 whose image window exists is patched
    into a buffer of exactly 0x6800 bytes that ends with FE C0 AD DE and
    whose two bytes before the marker hold, low byte first, the
    CRC-16/CCITT-FALSE checksum of the bytes [0, len-6). *)
Theorem downgrade_output_layout (f : Firmware) :
  TargetType f = FIRMWARE_TARGET_TYPE_TI ->
  Size f = 0x6000 ->
  window_ok f ->
  exists out,
    BaseImageDowngradeFromBL0302ToBL0301 f = Returned (f, (Some out, None))
    /\ len out = 0x6000 + 0x800
    /\ skipn (Z.to_nat (len out - 4)) out
       = [Byte.xfe; Byte.xc0; Byte.xad; Byte.xde]
    /\ Checksum (firstn (Z.to_nat (len out - 6)) out)
       = b2z (nth (Z.to_nat (len out - 6)) out Byte.x00)
         + 256 * b2z (nth (Z.to_nat (len out - 5)) out Byte.x00).
Proof.
  intros HT HS Hw.
  destruct (downgrade_returns f HT HS Hw) as (out & E & Hok).
  exists out. split; [exact E | exact Hok].
Qed.

Lemma sample_ti_6000_window : window_ok sample_ti_6000.
Proof.
  unfold window_ok. repeat split; vm_compute; congruence.
Defined.

Lemma downgrade_output_layout_witness :
  exists out,
    BaseImageDowngradeFromBL0302ToBL0301 sample_ti_6000
    = Returned (sample_ti_6000, (Some out, None))
    /\ len out = 0x6000 + 0x800
    /\ skipn (Z.to_nat (len out - 4)) out
       = [Byte.xfe; Byte.xc0; Byte.xad; Byte.xde]
    /\ Checksum (firstn (Z.to_nat (len out - 6)) out)
       = b2z (nth (Z.to_nat (len out - 6)) out Byte.x00)
         + 256 * b2z (nth (Z.to_nat (len out - 5)) out Byte.x00).
Proof.
  apply (downgrade_output_layout sample_ti_6000).
  - reflexivity.
  - reflexivity.
  - exact sample_ti_6000_window.
Defined.

(** C2. An entity that is not a TI image, or whose size is not 0x6000,
    is rejected: the patcher returns an error and the nil buffer, and the
    entity is left as it was.  An image of 0x6800 bytes, such as one that
    was patched before, is among them. *)
Theorem downgrade_rejects (f : Firmware) :
  TargetType f <> FIRMWARE_TARGET_TYPE_TI \/ Size f <> 0x6000 ->
  exists err,
    BaseImageDowngradeFromBL0302ToBL0301 f = Returned (f, (None, Some err)).
Proof.
  intros H. unfold BaseImageDowngradeFromBL0302ToBL0301.
  destruct (target_eqb (TargetType f) FIRMWARE_TARGET_TYPE_TI) eqn:ET.
  - apply target_eqb_eq in ET.
    destruct (Z.eqb_spec (Size f) 0x6000) as [ES|ES].
    + destruct H; contradiction.
    + cbn [negb]. eauto.
  - cbn [negb]. eauto.
Qed.

Lemma downgrade_rejects_witness :
  Size sample_ti_6800 = 0x6800
  /\ exists err,
       BaseImageDowngradeFromBL0302ToBL0301 sample_ti_6800
       = Returned (sample_ti_6800, (None, Some err)).
Proof.
  split; [reflexivity|].
  apply (downgrade_rejects sample_ti_6800).
  right. vm_compute. discriminate.
Defined.

(** ** The hex record loader *)

Lemma land_shiftl_8 (a b : Z) :
  0 <= b < 256 -> Z.land (Z.shiftl a 8) b = 0.
Proof.
  intros Hb. apply Z.bits_inj'. intros n Hn.
  rewrite Z.land_spec, Z.bits_0.
  destruct (Z.lt_ge_cases n 8) as [H8|H8].
  - now rewrite Z.shiftl_spec_low by lia.
  - rewrite (Z.bits_above_log2 b n), andb_false_r; [reflexivity|lia|].
    destruct (Z.eq_dec b 0) as [->|]; [simpl; lia|].
    apply Z.lt_le_trans with 8; [|lia].
    apply Z.log2_lt_pow2; simpl; lia.
Qed.

Lemma lor_shiftl_8 (a b : Z) :
  0 <= b < 256 -> Z.lor (Z.shiftl a 8) b = 256 * a + b.
Proof.
  intros Hb. pose proof (land_shiftl_8 a b Hb) as H0.
  rewrite <- Z.lxor_lor by exact H0.
  rewrite <- Z.add_nocarry_lxor by exact H0.
  rewrite Z.shiftl_mul_pow2 by lia. lia.
Qed.

Lemma rec_addr_value (h : bytes) :
  rec_addr h = 256 * b2z (nth 1 h Byte.x00) + b2z (nth 2 h Byte.x00).
Proof.
  unfold rec_addr.
  pose proof (b2z_range (nth 1 h Byte.x00)).
  pose proof (b2z_range (nth 2 h Byte.x00)).
  apply lor_shiftl_8; lia.
Qed.

Lemma rec_addr_range (h : bytes) : 0 <= rec_addr h < 65536.
Proof.
  rewrite rec_addr_value.
  pose proof (b2z_range (nth 1 h Byte.x00)).
  pose proof (b2z_range (nth 2 h Byte.x00)). lia.
Qed.

Lemma rec_len_range (h : bytes) : 0 <= rec_len h < 256.
Proof. apply b2z_range. Qed.

Lemma rec_data_length (h : bytes) :
  record_ok h -> len (rec_data h) = rec_len h.
Proof.
  intros [_ H]. pose proof (rec_len_range h).
  unfold rec_data, len in *. rewrite length_firstn, length_skipn. lia.
Qed.

(** The header and the data of a well-formed record, as
    [pushRawHexLine] reads them. *)
Lemma record_fields (h : bytes) :
  record_ok h ->
  (len h <? 4) = false
  /\ index h 0 = Returned (nth 0 h Byte.x00)
  /\ index h 1 = Returned (nth 1 h Byte.x00)
  /\ index h 2 = Returned (nth 2 h Byte.x00)
  /\ index h 3 = Returned (nth 3 h Byte.x00)
  /\ slice h 4 (u8 (4 + rec_len h)) = Returned (rec_data h).
Proof.
  intros [H1 H2]. pose proof (rec_len_range h) as Hr.
  repeat split.
  - apply Z.ltb_ge. lia.
  - apply (index_ok h 0). lia.
  - apply (index_ok h 1). lia.
  - apply (index_ok h 2). lia.
  - apply (index_ok h 3). lia.
  - unfold u8. rewrite Z.mod_small by lia.
    rewrite slice_ok by lia. unfold rec_data.
    do 2 f_equal. lia.
Qed.

Lemma pushed_buffer_length (buf h : bytes) :
  record_ok h -> len (pushed_buffer buf h) = Z.max (len buf) (rec_end h).
Proof.
  intros Hok. pose proof (rec_data_length h Hok) as Hd.
  pose proof (rec_addr_range h). pose proof (rec_len_range h).
  unfold pushed_buffer, rec_end in *.
  destruct (Z.ltb_spec (len buf) (rec_addr h + rec_len h)).
  - rewrite blit_length; rewrite ?len_app, ?len_repeat; lia.
  - rewrite blit_length; lia.
Qed.

Lemma seed_start_eq rd sz st la bl crc tp sg hs tt (a : Z) :
  seed_start (mkFirmware rd sz st la bl crc tp sg hs tt) a
  = mkFirmware (Some (match rd with Some b => b | None => [] end)) sz
               (match rd with Some _ => st | None => u16 a end)
               la bl crc tp sg hs tt.
Proof. destruct rd; reflexivity. Qed.

Lemma pad_to_eq b sz st la bl crc tp sg hs tt (rs : Z) :
  pad_to (mkFirmware (Some b) sz st la bl crc tp sg hs tt) rs
  = mkFirmware
      (Some (if len b <? rs
             then b ++ repeat Byte.xff (Z.to_nat (rs - len b)) else b))
      sz st la bl crc tp sg hs tt.
Proof.
  unfold pad_to, raw. cbn [RawData].
  destruct (len b <? rs); reflexivity.
Qed.

Lemma track_start_eq rd sz st la bl crc tp sg hs tt (a : Z) :
  track_start (mkFirmware rd sz st la bl crc tp sg hs tt) a
  = mkFirmware rd sz (if u16 a <? st then u16 a else st)
               la bl crc tp sg hs tt.
Proof.
  unfold track_start. cbn [StartOffset].
  destruct (u16 a <? st); reflexivity.
Qed.

Lemma track_size_eq rd sz st la bl crc tp sg hs tt (rs : Z) :
  track_size (mkFirmware rd sz st la bl crc tp sg hs tt) rs
  = let grows := u16 rs >? u16 (sz + st) in
    let size := if grows then u16 (u16 rs - st) else sz in
    mkFirmware rd size st (if grows then u16 (st + size - 1) else la)
               bl crc tp sg hs tt.
Proof.
  unfold track_size. cbn [StartOffset Size].
  destruct (u16 rs >? u16 (sz + st)); reflexivity.
Qed.

(** A well-formed data record is always accepted, and leaves the entity
    [pushed_data] describes. *)
Lemma pushRawHexLine_data (f : Firmware) (h : bytes) :
  data_record h ->
  pushRawHexLine f h = Returned (pushed_data f h, None).
Proof.
  intros [Hok Ht].
  destruct (record_fields h Hok) as (E4 & E0 & E1 & E2 & E3 & Ed).
  pose proof (rec_addr_range h) as Ha. pose proof (rec_len_range h) as Hl.
  pose proof (rec_data_length h Hok) as Hd.
  unfold pushRawHexLine. rewrite E4, E0. ret. rewrite E1. ret.
  rewrite E2. ret. rewrite E3. ret.
  fold (rec_addr h). fold (rec_len h). rewrite Ed. ret.
  fold (rec_type h). rewrite Ht. rewrite byte_eqb_refl. cbv zeta.
  fold (rec_end h).
  assert (Hcopy : forall buf : bytes,
             copy_window
               (if len buf <? rec_end h
                then buf ++ repeat Byte.xff (Z.to_nat (rec_end h - len buf))
                else buf) (rec_addr h) (rec_end h) (rec_data h)
             = Returned (pushed_buffer buf h)).
  { intros buf. unfold copy_window, pushed_buffer.
    set (padded := if len buf <? rec_end h then _ else _).
    assert (Hp : rec_end h <= len padded).
    { unfold padded. destruct (Z.ltb_spec (len buf) (rec_end h)).
      - rewrite len_app, len_repeat. lia.
      - lia. }
    unfold rec_end in *. rewrite slice_ok by lia. ret.
    do 2 f_equal. apply firstn_all2.
    rewrite length_firstn, length_skipn. unfold len in *. lia. }
  destruct f as [rd sz st la bl crc tp sg hs tt].
  rewrite seed_start_eq, pad_to_eq. unfold raw at 1. cbn [RawData].
  rewrite Hcopy. ret. unfold set_RawData.
  cbn [RawData Size StartOffset LastOffset HasBL CRC TailPos Signature
       HasSignature TargetType].
  rewrite track_start_eq, track_size_eq. cbv zeta.
  unfold pushed_data, raw.
  cbn [RawData Size StartOffset LastOffset HasBL CRC TailPos Signature
       HasSignature TargetType].
  rewrite (u16_small (rec_addr h)) by lia.
  assert (Est : (if rec_addr h <? match rd with Some _ => st | None => rec_addr h end
                 then rec_addr h
                 else match rd with Some _ => st | None => rec_addr h end)
                = match rd with
                  | None => rec_addr h
                  | Some _ => Z.min (rec_addr h) st
                  end).
  { destruct rd.
    - destruct (Z.ltb_spec (rec_addr h) st); lia.
    - now rewrite Z.ltb_irrefl. }
  rewrite Est. reflexivity.
Qed.

Lemma raw_pushed_data (f : Firmware) (h : bytes) :
  raw (pushed_data f h) = pushed_buffer (raw f) h.
Proof. reflexivity. Qed.

(** The bytes of the buffer after a data record: the record's bytes in
    its range, the old bytes where there were some, 0xFF elsewhere. *)
Lemma pushed_buffer_nth (buf h : bytes) (i : nat) :
  record_ok h ->
  Z.of_nat i < len (pushed_buffer buf h) ->
  nth i (pushed_buffer buf h) Byte.x00
  = if (rec_addr h <=? Z.of_nat i) && (Z.of_nat i <? rec_end h)
    then nth (i - Z.to_nat (rec_addr h)) (rec_data h) Byte.x00
    else if Z.of_nat i <? len buf then nth i buf Byte.x00 else Byte.xff.
Proof.
  intros Hok Hi. rewrite pushed_buffer_length in Hi by exact Hok.
  pose proof (rec_data_length h Hok) as Hd.
  pose proof (rec_addr_range h) as Ha. pose proof (rec_len_range h) as Hl.
  unfold pushed_buffer. unfold rec_end in *.
  set (padded := if len buf <? _ then _ else _).
  assert (Hp : len padded = Z.max (len buf) (rec_addr h + rec_len h)).
  { unfold padded. destruct (Z.ltb_spec (len buf) (rec_addr h + rec_len h)).
    - rewrite len_app, len_repeat. lia.
    - lia. }
  assert (Hn : nth i padded Byte.x00
               = if Z.of_nat i <? len buf then nth i buf Byte.x00 else Byte.xff).
  { unfold padded.
    destruct (Z.ltb_spec (Z.of_nat i) (len buf)) as [Hlt|Hge].
    - destruct (len buf <? rec_addr h + rec_len h); [|reflexivity].
      apply app_nth1. unfold len in Hlt. lia.
    - destruct (Z.ltb_spec (len buf) (rec_addr h + rec_len h)) as [Hb|Hb]; [|lia].
      rewrite app_nth2 by (unfold len in Hge; lia).
      apply nth_repeat_lt. unfold len in *. lia. }
  destruct (Z.leb_spec (rec_addr h) (Z.of_nat i)) as [H1|H1];
    [destruct (Z.ltb_spec (Z.of_nat i) (rec_addr h + rec_len h)) as [H2|H2]|];
    cbn [andb].
  - replace i with (Z.to_nat (rec_addr h) + (i - Z.to_nat (rec_addr h)))%nat
      at 1 by lia.
    apply blit_nth_in; unfold len in *; lia.
  - rewrite blit_nth_out by (unfold len in *; lia). exact Hn.
  - rewrite blit_nth_out by (unfold len in *; lia). exact Hn.
Qed.

(** ** Sequences of data records *)


Lemma max_end_nonneg (hs : list bytes) : 0 <= max_end hs.
Proof. induction hs; simpl; lia. Qed.

(** Every well-formed data record is accepted; the buffer grows to the
    largest end, and a position that belongs to no record keeps its old
    byte, or holds 0xFF when the buffer did not reach it before. *)
Lemma push_all_data (hs : list bytes) :
  Forall data_record hs ->
  forall f : Firmware,
  exists f',
    push_all f hs = Returned f'
    /\ len (raw f') = Z.max (len (raw f)) (max_end hs)
    /\ forall i : nat,
         Z.of_nat i < len (raw f') ->
         ~ covered hs (Z.of_nat i) ->
         nth i (raw f') Byte.x00
         = if Z.of_nat i <? len (raw f) then nth i (raw f) Byte.x00
           else Byte.xff.
Proof.
  induction 1 as [|h hs Hh _ IH]; intros f.
  - exists f. cbn [push_all max_end fold_right].
    pose proof (len_nonneg (raw f)).
    split; [reflexivity|]. split; [lia|].
    intros i Hi _. destruct (Z.ltb_spec (Z.of_nat i) (len (raw f))); [reflexivity|lia].
  - cbn [push_all]. rewrite (pushRawHexLine_data f h Hh). ret. cbn [fst].
    destruct (IH (pushed_data f h)) as (f' & E & L & N).
    rewrite raw_pushed_data in L, N.
    destruct Hh as [Hok _].
    pose proof (pushed_buffer_length (raw f) h Hok) as Lp.
    exists f'. split; [exact E|]. split.
    + cbn [max_end fold_right]. fold (max_end hs). lia.
    + intros i Hi Hc.
      assert (Hc1 : ~ (rec_addr h <= Z.of_nat i < rec_end h)).
      { intros Hr. apply Hc. now constructor. }
      assert (Hc2 : ~ covered hs (Z.of_nat i)).
      { intros Hr. apply Hc. now constructor 2. }
      rewrite (N i Hi Hc2).
      destruct (Z.ltb_spec (Z.of_nat i) (len (pushed_buffer (raw f) h))) as [Hlt|Hge].
      * rewrite pushed_buffer_nth by assumption.
        destruct (Z.leb_spec (rec_addr h) (Z.of_nat i));
          destruct (Z.ltb_spec (Z.of_nat i) (rec_end h)); cbn [andb];
          try reflexivity.
        lia.
      * destruct (Z.ltb_spec (Z.of_nat i) (len (raw f))); [lia|reflexivity].
Qed.


Lemma max_end_ge (hs : list bytes) (h : bytes) :
  In h hs -> rec_end h <= max_end hs.
Proof.
  induction hs as [|h' hs IH]; intros Hin; [contradiction|].
  cbn [max_end fold_right]. fold (max_end hs).
  destruct Hin as [->|Hin]; [lia|]. specialize (IH Hin). lia.
Qed.

Lemma max_end_le (hs : list bytes) (bound : Z) :
  Forall (fun h => rec_end h <= bound) hs -> 0 <= bound ->
  max_end hs <= bound.
Proof.
  intros H Hb. induction H as [|h hs Hh _ IH].
  - cbn. exact Hb.
  - cbn [max_end fold_right]. fold (max_end hs). lia.
Qed.

Lemma min_addr_first (h0 : bytes) (hs : list bytes) :
  Forall (fun h => rec_addr h0 <= rec_addr h) hs ->
  min_addr (h0 :: hs) = rec_addr h0.
Proof.
  unfold min_addr. induction 1 as [|h hs Hh _ IH]; cbn [fold_right]; lia.
Qed.

Lemma span_inv_step (a0 e : Z) (f : Firmware) (h : bytes) :
  span_inv a0 e f ->
  0 <= a0 <= e -> e <= 0xFFFF ->
  record_ok h -> a0 <= rec_addr h -> rec_end h <= 0xFFFF ->
  span_inv a0 (Z.max e (rec_end h)) (pushed_data f h).
Proof.
  intros ((b & Hb) & Hst & Hsz & Hla & Hlen) Ha He Hok Hlo Hhi.
  pose proof (rec_len_range h) as Hl. unfold rec_end in *.
  destruct f as [rd sz st la bl crc tp sg hs tt].
  cbn [RawData StartOffset Size LastOffset] in *. subst rd st sz.
  unfold span_inv, pushed_data.
  cbn [RawData StartOffset Size LastOffset raw].
  unfold raw in Hlen. cbn [RawData] in Hlen.
  rewrite Z.min_r by lia.
  replace (e - a0 + a0) with e by lia.
  rewrite (u16_small e), (u16_small (rec_end h)) by (unfold rec_end; lia).
  unfold rec_end.
  rewrite pushed_buffer_length, Hlen by exact Hok. unfold rec_end.
  destruct (Z.gtb_spec (rec_addr h + rec_len h) e) as [Hg|Hg].
  - rewrite (u16_small (rec_addr h + rec_len h - a0)) by lia.
    rewrite u16_small by lia.
    rewrite Z.max_r by lia.
    repeat split; try lia. eauto.
  - rewrite Z.max_l by lia.
    repeat split; try lia; eauto.
Qed.

Lemma span_inv_push_all (a0 : Z) (hs : list bytes) :
  Forall data_record hs ->
  Forall (fun h => a0 <= rec_addr h) hs ->
  Forall (fun h => rec_end h <= 0xFFFF) hs ->
  forall (e : Z) (f : Firmware),
    span_inv a0 e f -> 0 <= a0 <= e -> e <= 0xFFFF ->
    exists f',
      push_all f hs = Returned f' /\ span_inv a0 (Z.max e (max_end hs)) f'.
Proof.
  induction hs as [|h hs IH]; intros Hd Hlo Hhi e f Hinv Ha He.
  - exists f. cbn [push_all max_end fold_right].
    rewrite Z.max_l by lia. auto.
  - inversion Hd as [|? ? Hd1 Hd2]; inversion Hlo as [|? ? Hlo1 Hlo2];
      inversion Hhi as [|? ? Hhi1 Hhi2]; subst.
    cbn [push_all]. rewrite (pushRawHexLine_data f h Hd1). ret. cbn [fst].
    pose proof (rec_len_range h) as Hl.
    destruct (IH Hd2 Hlo2 Hhi2 (Z.max e (rec_end h)) (pushed_data f h))
      as (f' & E & Hinv').
    + apply span_inv_step; try assumption. apply Hd1.
    + unfold rec_end in *. lia.
    + lia.
    + exists f'. split; [exact E|].
      cbn [max_end fold_right]. fold (max_end hs).
      replace (Z.max e (Z.max (rec_end h) (max_end hs)))
        with (Z.max (Z.max e (rec_end h)) (max_end hs)) by lia.
      exact Hinv'.
Qed.

Lemma span_inv_first (h0 : bytes) :
  record_ok h0 -> rec_end h0 <= 0xFFFF ->
  span_inv (rec_addr h0) (rec_end h0) (pushed_data new_Firmware h0).
Proof.
  intros Hok Hhi.
  pose proof (rec_len_range h0) as Hl. pose proof (rec_addr_range h0) as Ha.
  unfold span_inv, pushed_data, new_Firmware.
  cbn [RawData StartOffset Size LastOffset raw].
  rewrite pushed_buffer_length by exact Hok.
  change (len (@nil byte)) with 0.
  unfold rec_end in *.
  rewrite (u16_small (rec_addr h0 + rec_len h0)) by lia.
  rewrite (u16_small (0 + rec_addr h0)) by lia.
  destruct (Z.gtb_spec (rec_addr h0 + rec_len h0) (0 + rec_addr h0)) as [Hg|Hg].
  - rewrite (u16_small (rec_addr h0 + rec_len h0 - rec_addr h0)) by lia.
    rewrite u16_small by lia.
    repeat split; try lia. eauto.
  - repeat split; try lia. eauto.
Qed.

(** Records that stay within the 16-bit range, none of them starting
    below the first one, and one of them at least with data: the layout
    fields follow the records. *)
Lemma span_tracked_ascending (h0 : bytes) (hs : list bytes) :
  Forall data_record (h0 :: hs) ->
  Forall (fun h => rec_end h <= 0xFFFF) (h0 :: hs) ->
  Forall (fun h => rec_addr h0 <= rec_addr h) hs ->
  Exists (fun h => 0 < rec_len h) (h0 :: hs) ->
  exists f',
    push_all new_Firmware (h0 :: hs) = Returned f'
    /\ tracked_span (h0 :: hs) f'.
Proof.
  intros Hd Hhi Hlo Hex.
  inversion Hd as [|? ? Hd1 Hd2]; inversion Hhi as [|? ? Hhi1 Hhi2]; subst.
  pose proof (rec_len_range h0) as Hl. pose proof (rec_addr_range h0) as Ha.
  cbn [push_all]. rewrite (pushRawHexLine_data new_Firmware h0 Hd1). ret.
  cbn [fst].
  destruct (span_inv_push_all (rec_addr h0) hs Hd2 Hlo Hhi2 (rec_end h0)
              (pushed_data new_Firmware h0)) as (f' & E & Hinv).
  - apply span_inv_first; [apply Hd1 | exact Hhi1].
  - unfold rec_end. lia.
  - exact Hhi1.
  - exists f'. split; [exact E|].
    destruct Hinv as ((b & Hb) & Hst & Hsz & Hla & Hlen).
    assert (Hm : Z.max (rec_end h0) (max_end hs) = max_end (h0 :: hs))
      by reflexivity.
    rewrite Hm in *.
    assert (Hmax : max_end (h0 :: hs) <= 0xFFFF).
    { apply max_end_le; [exact Hhi | lia]. }
    assert (Hgt : rec_addr h0 < max_end (h0 :: hs)).
    { apply Exists_exists in Hex as (h & Hin & Hpos).
      pose proof (max_end_ge _ _ Hin) as Hge.
      assert (rec_addr h0 <= rec_addr h).
      { destruct Hin as [<-|Hin]; [lia|].
        rewrite Forall_forall in Hlo. now apply Hlo. }
      unfold rec_end in *. lia. }
    unfold tracked_span. rewrite min_addr_first by exact Hlo.
    repeat split; try lia.
    unfold trim. rewrite Hst, Hsz, Hb.
    rewrite u16_small by lia.
    replace (rec_addr h0 + (max_end (h0 :: hs) - rec_addr h0))
      with (max_end (h0 :: hs)) by lia.
    rewrite slice_ok by lia. ret.
    eexists. split; [reflexivity|].
    unfold raw at 1. cbn [RawData set_RawData].
    unfold len in *. rewrite length_firstn, length_skipn. lia.
Qed.

Lemma low_record_ok : data_record low_record.
Proof. repeat split; vm_compute; congruence. Defined.

Lemma high_record_ok : data_record high_record.
Proof. repeat split; vm_compute; congruence. Defined.

Lemma wrap_record_ok : data_record wrap_record.
Proof. repeat split; vm_compute; congruence. Defined.


(** C4 as stated does not hold: a record that ends beyond 0xFFFF is
    accepted, and the 16-bit size does not reach its end. *)
Lemma span_not_tracked_beyond_16_bits :
  exists f',
    pushRawHexLine new_Firmware wrap_record = Returned (f', None)
    /\ StartOffset f' = 0xFFF0 /\ Size f' = 0 /\ LastOffset f' = 0
    /\ max_end [wrap_record] = 0x10010
    /\ ~ tracked_span [wrap_record] f'.
Proof.
  exists (pushed_data new_Firmware wrap_record).
  split; [apply pushRawHexLine_data, wrap_record_ok|].
  repeat split; try (vm_compute; reflexivity).
  intros (_ & H & _). vm_compute in H. discriminate.
Qed.

(** The layout fields after a record at 0x0010 followed by one at
    0x0000: the start offset is lowered, the size is not raised, and the
    trim keeps the four bytes of the second record only. *)
Lemma descending_records_layout :
  let f' := pushed_data (pushed_data new_Firmware high_record) low_record in
  push_all new_Firmware [high_record; low_record] = Returned f'
  /\ StartOffset f' = 0 /\ Size f' = 4 /\ LastOffset f' = 0x13
  /\ len (raw f') = 0x14
  /\ trim f'
     = Returned (set_RawData (Some [Byte.x11; Byte.x22; Byte.x33; Byte.x44]) f').
Proof.
  repeat split; vm_compute; reflexivity.
Qed.

(** ** Records that end beyond the 16-bit range *)


(** The image window exists after every data record when it existed
    before: the loader never leaves layout fields that make the trim
    fail. *)
Lemma pushed_data_window (f : Firmware) (h : bytes) :
  record_ok h -> window_ok f -> window_ok (pushed_data f h).
Proof.
  intros Hok (H0 & H1 & H2 & H3).
  pose proof (rec_len_range h) as Hl. pose proof (rec_addr_range h) as Ha.
  pose proof (pushed_buffer_length (raw f) h Hok) as Lp.
  pose proof (u16_range (rec_end h)) as Hu.
  assert (Hue : u16 (rec_end h) <= rec_end h).
  { unfold u16, rec_end. apply Z.mod_le; lia. }
  unfold window_ok. rewrite raw_pushed_data, Lp.
  assert (Hnil : RawData f = None -> len (raw f) = 0)
    by (unfold raw; now intros ->).
  set (L := len (raw f)) in *.
  destruct f as [rd sz st la bl crc tp sg hs tt].
  unfold pushed_data.
  cbn [RawData Size StartOffset LastOffset] in *.
  set (start := match rd with
                | Some _ => Z.min (rec_addr h) st
                | None => rec_addr h
                end).
  assert (Hs : 0 <= start /\ sz + start <= 0xFFFF
               /\ sz + start <= Z.max L (rec_end h)).
  { unfold start, rec_end. destruct rd as [buf|].
    - lia.
    - specialize (Hnil eq_refl). lia. }
  destruct Hs as (Hs0 & Hs1 & Hs2). clearbody start.
  rewrite (u16_small (sz + start)) by lia.
  destruct (Z.gtb_spec (u16 (rec_end h)) (sz + start)) as [Hg|Hg];
    cbv iota.
  - rewrite (u16_small (u16 (rec_end h) - start)) by lia. lia.
  - lia.
Qed.

Lemma push_all_window (hs : list bytes) :
  Forall data_record hs ->
  forall f f', window_ok f -> push_all f hs = Returned f' -> window_ok f'.
Proof.
  induction 1 as [|h hs Hh _ IH]; intros f f' Hw E.
  - cbn [push_all] in E. now injection E as <-.
  - cbn [push_all] in E. rewrite (pushRawHexLine_data f h Hh) in E.
    rewrite bind_Returned in E. cbn [fst] in E.
    apply (IH (pushed_data f h)); [|exact E].
    apply pushed_data_window; [apply Hh | exact Hw].
Qed.

Lemma trim_returns (f : Firmware) :
  window_ok f ->
  exists t, trim f = Returned t /\ len (raw t) = Size f.
Proof.
  intros (H0 & H1 & H2 & H3). unfold trim.
  rewrite u16_small by lia. rewrite slice_ok by lia. ret.
  eexists. split; [reflexivity|].
  destruct f as [rd sz st la bl crc tp sg hs tt].
  unfold raw in *. cbn [RawData Size StartOffset set_RawData] in *.
  destruct rd as [buf|].
  - unfold len in *. rewrite length_firstn, length_skipn. lia.
  - change (len (@nil byte)) with 0 in *. unfold len. cbn. lia.
Qed.

Lemma fold_min_start (l : list bytes) (x y : Z) :
  fold_right (fun h m => Z.min (rec_addr h) m) (Z.min x y) l
  = Z.min x (fold_right (fun h m => Z.min (rec_addr h) m) y l).
Proof.
  induction l as [|h l IH]; cbn [fold_right]; [reflexivity|].
  rewrite IH. lia.
Qed.

Lemma pushed_data_not_nil (f : Firmware) (h : bytes) :
  RawData (pushed_data f h) <> None.
Proof. unfold pushed_data. cbn [RawData]. discriminate. Qed.

(** The start offset follows the smallest address, whatever the order of
    the records. *)
Lemma push_all_start (hs : list bytes) :
  Forall data_record hs ->
  forall f f',
    RawData f <> None ->
    push_all f hs = Returned f' ->
    StartOffset f'
    = fold_right (fun h m => Z.min (rec_addr h) m) (StartOffset f) hs.
Proof.
  induction 1 as [|h hs Hh _ IH]; intros f f' Hraw E.
  - cbn [push_all] in E. now injection E as <-.
  - cbn [push_all] in E. rewrite (pushRawHexLine_data f h Hh) in E.
    rewrite bind_Returned in E. cbn [fst] in E.
    rewrite (IH (pushed_data f h) f');
      [|apply pushed_data_not_nil|exact E].
    cbn [fold_right]. rewrite <- fold_min_start. f_equal.
    unfold pushed_data. cbn [StartOffset].
    destruct (RawData f); [reflexivity|congruence].
Qed.

(** C4, as the code has it.  After a sequence of accepted data records,
    in any order, the start offset is the smallest address and the
    trimmed buffer has exactly [Size] bytes.  When the records stay
    within the 16-bit range, none of them starts below the first one and
    one of them at least has data, the size spans up to the largest end
    and the last offset closes the span. *)
Theorem span_tracked_in_range (h0 : bytes) (hs : list bytes) :
  Forall data_record (h0 :: hs) ->
  exists f',
    push_all new_Firmware (h0 :: hs) = Returned f'
    /\ StartOffset f' = min_addr (h0 :: hs)
    /\ (exists t, trim f' = Returned t /\ len (raw t) = Size f')
    /\ (Forall (fun h => rec_end h <= 0xFFFF) (h0 :: hs) ->
        Forall (fun h => rec_addr h0 <= rec_addr h) hs ->
        Exists (fun h => 0 < rec_len h) (h0 :: hs) ->
        Size f' = max_end (h0 :: hs) - StartOffset f'
        /\ LastOffset f' = StartOffset f' + Size f' - 1).
Proof.
  intros Hd.
  destruct (push_all_data (h0 :: hs) Hd new_Firmware) as (f' & E & _).
  exists f'. split; [exact E|]. split; [|split].
  - inversion Hd as [|? ? Hd0 Hds]; subst.
    cbn [push_all] in E. rewrite (pushRawHexLine_data _ h0 Hd0) in E.
    rewrite bind_Returned in E. cbn [fst] in E.
    rewrite (push_all_start hs Hds _ f' (pushed_data_not_nil _ _) E).
    reflexivity.
  - apply trim_returns.
    apply (push_all_window (h0 :: hs) Hd new_Firmware f'); [|exact E].
    unfold window_ok. repeat split; vm_compute; congruence.
  - intros Hhi Hlo Hex.
    destruct (span_tracked_ascending h0 hs Hd Hhi Hlo Hex)
      as (f'' & E' & _ & Hsz & Hla & _).
    rewrite E in E'. injection E' as <-. split; assumption.
Qed.

Lemma span_tracked_in_range_witness :
  exists f',
    push_all new_Firmware [low_record; high_record] = Returned f'
    /\ StartOffset f' = min_addr [low_record; high_record]
    /\ (exists t, trim f' = Returned t /\ len (raw t) = Size f')
    /\ Size f' = max_end [low_record; high_record] - StartOffset f'
    /\ LastOffset f' = StartOffset f' + Size f' - 1.
Proof.
  destruct (span_tracked_in_range low_record [high_record])
    as (f' & E & Hs & Ht & Hr).
  - repeat (apply Forall_cons;
            [first [exact low_record_ok | exact high_record_ok]|]).
    apply Forall_nil.
  - exists f'. split; [exact E|]. split; [exact Hs|]. split; [exact Ht|].
    apply Hr.
    + repeat (apply Forall_cons; [vm_compute; congruence|]). apply Forall_nil.
    + repeat (apply Forall_cons; [vm_compute; congruence|]). apply Forall_nil.
    + apply Exists_cons_hd. vm_compute. reflexivity.
Defined.




(** The same record after a record of four bytes at address 0: the
    truncated end 0x10 exceeds the previous end 4, so the size becomes
    0x10 and the last offset 0xF, although the buffer holds the record up
    to 0x10010. *)
Lemma wrap_record_after_low_record :
  exists f',
    pushRawHexLine (pushed_data new_Firmware low_record) wrap_record
    = Returned (f', None)
    /\ len (raw f') = 0x10010
    /\ StartOffset f' = 0 /\ Size f' = 0x10 /\ LastOffset f' = 0xF.
Proof.
  exists (pushed_data (pushed_data new_Firmware low_record) wrap_record).
  split; [apply pushRawHexLine_data, wrap_record_ok|].
  repeat split; vm_compute; reflexivity.
Qed.

(** The record of the example, address 0xFFF0 and length 0x20, pushed
    into a fresh entity: 0x10010 bytes are stored, the size stays 0 and
    the trim keeps nothing. *)
Lemma wrap_record_trimmed_away :
  exists f' t,
    pushRawHexLine new_Firmware wrap_record = Returned (f', None)
    /\ len (raw f') = 0x10010
    /\ StartOffset f' = 0xFFF0 /\ Size f' = 0 /\ LastOffset f' = 0
    /\ trim f' = Returned t /\ raw t = [].
Proof.
  exists (pushed_data new_Firmware wrap_record). eexists.
  split; [apply pushRawHexLine_data, wrap_record_ok|].
  repeat split; vm_compute; reflexivity.
Qed.

(** ** The lines of a hex file and their records *)

Lemma hex_digits_of_byte (b : byte) :
  fromHexChar (hex_digit (b2z b / 16)) = Some (b2z b / 16)
  /\ fromHexChar (hex_digit (b2z b mod 16)) = Some (b2z b mod 16)
  /\ z2b (Z.lor (Z.shiftl (b2z b / 16) 4) (b2z b mod 16)) = b.
Proof.
  destruct b; vm_compute; repeat split; reflexivity.
Qed.

Lemma DecodeString_hex_of_bytes (h : bytes) :
  DecodeString (hex_of_bytes h) = Some h.
Proof.
  induction h as [|b h IH]; [reflexivity|].
  cbn [hex_of_bytes DecodeString].
  destruct (hex_digits_of_byte b) as (E1 & E2 & E3).
  now rewrite E1, E2, IH, E3.
Qed.

(** The scanner loop on the lines of data and signature records does what
    [push_all] does on the records. *)
Lemma load_lines_records (hs : list bytes) :
  Forall (fun h => 4 <= len h
                   /\ (rec_type h = Byte.x00 \/ rec_type h = Byte.xfd)) hs ->
  forall f : Firmware, load_lines f (map hex_line hs) = push_all f hs.
Proof.
  induction 1 as [|h hs [H4 Ht] _ IH]; intros f; [reflexivity|].
  cbn [map load_lines push_all]. unfold hex_line at 1.
  rewrite DecodeString_hex_of_bytes.
  destruct (Z.ltb_spec (len h) 4); [lia|]. fold (rec_type h).
  assert (Hkeep : negb (Byte.eqb (rec_type h) Byte.x00)
                  && negb (Byte.eqb (rec_type h) Byte.xfd) = false)
    by (destruct Ht as [-> | ->]; reflexivity).
  rewrite Hkeep. cbn [orb].
  destruct (pushRawHexLine f h) as [r|]; [|reflexivity].
  rewrite !bind_Returned. apply IH.
Qed.

(** ** Signature records *)








(** ** Inputs on which the engine panics *)

(** C3.  The engine does panic: on a hex file with an empty line
    ([scanner.Text()[1:]]), on a record whose length byte is 0xFF (the
    upper index [4+length] wraps around in a byte) or exceeds the bytes
    present, on a raw buffer shorter than 0x400, on a buffer that starts
    with the end marker (the checksum position wraps below zero) and on a
    buffer a little longer than 0x7400 (the vendor bytes are read at
    0x7FB0 without the buffer reaching there). *)
Theorem engine_operations_panic :
  ParseFirmwareHex [":00000001FF"%string; EmptyString] = Panicked
  /\ pushRawHexLine new_Firmware [Byte.xff; Byte.x00; Byte.x00; Byte.x00]
     = Panicked
  /\ pushRawHexLine new_Firmware
       [Byte.x10; Byte.x00; Byte.x00; Byte.x00; Byte.xaa] = Panicked
  /\ ParseFirmwareBin [] = Panicked
  /\ ParseFirmwareBin marker_first_blob = Panicked
  /\ ParseFirmwareBin zeros_7401 = Panicked.
Proof.
  repeat split; vm_compute; reflexivity.
Qed.

(** Every raw buffer shorter than 0x400 makes the TI detector panic. *)
Lemma short_buffer_panics (blob : bytes) :
  len blob < 0x400 -> ParseFirmwareBin blob = Panicked.
Proof.
  intros H. unfold ParseFirmwareBin, classify, ParseFirmwareTI.
  assert (E : raw (set_TargetType FIRMWARE_TARGET_TYPE_UNKNOWN
                     (set_RawData (Some blob) new_Firmware)) = blob)
    by reflexivity.
  rewrite E. rewrite slice_panics by lia. reflexivity.
Qed.

(** Every record of at least four bytes whose length field promises more
    data than the record holds makes the loader panic. *)
Lemma short_record_panics (f : Firmware) (h : bytes) :
  4 <= len h -> len h < 4 + rec_len h -> pushRawHexLine f h = Panicked.
Proof.
  intros H4 Hl. pose proof (rec_len_range h) as Hr.
  unfold pushRawHexLine.
  destruct (Z.ltb_spec (len h) 4); [lia|].
  rewrite (index_ok h 0), (index_ok h 1), (index_ok h 2), (index_ok h 3) by lia.
  repeat ret. change (Z.to_nat 0) with O. fold (rec_len h).
  rewrite slice_panics; [reflexivity|].
  unfold u8. destruct (Z.le_gt_cases 256 (4 + rec_len h)).
  - right; left.
    replace ((4 + rec_len h) mod 256) with (4 + rec_len h - 256); [lia|].
    apply Z.mod_unique with 1; lia.
  - right; right. rewrite Z.mod_small by lia. lia.
Qed.

(** ** The format detectors and the layout fields *)


Lemma nordic_candidate_eq (f : Firmware) (last size : Z) :
  2 <= size < 65536 -> size <= len (raw f) ->
  nordic_candidate f last size
  = Returned
      (set_CRC (stored_crc_be (raw f) size)
         (set_Size size (set_LastOffset last (set_StartOffset 0 f))),
       nordic_crc_ok (raw f) size).
Proof.
  intros Hs Hl. unfold nordic_candidate. cbv zeta.
  change (raw (set_Size size (set_LastOffset last (set_StartOffset 0 f))))
    with (raw f).
  change (Size (set_Size size (set_LastOffset last (set_StartOffset 0 f))))
    with size.
  rewrite !u16_small by lia.
  rewrite !index_ok by lia. ret. ret.
  change (raw (set_CRC ?c (set_Size size
                (set_LastOffset last (set_StartOffset 0 f))))) with (raw f).
  change (Size (set_CRC ?c (set_Size size
                (set_LastOffset last (set_StartOffset 0 f))))) with size.
  rewrite u16_small by lia.
  rewrite slice_ok by lia. ret.
  rewrite Z.sub_0_r. reflexivity.
Qed.

(** The vendor check of the Nordic detector, where it does not read
    beyond the buffer. *)
Lemma nordic_vid_check (s : bytes) :
  len s <= 0x7400 \/ 0x7400 + 0xbb2 <= len s ->
  (if len s >? 0x7400
   then v0 <- index s (0x7400 + 0xbb0) ;;
        if Byte.eqb v0 Byte.x04
        then v1 <- index s (0x7400 + 0xbb1) ;;
             Returned (Byte.eqb v1 Byte.x6d)
        else Returned false
   else Returned false)
  = Returned (nordic_vid s).
Proof.
  intros H. unfold nordic_vid.
  destruct (Z.gtb_spec (len s) 0x7400) as [Hg|Hg].
  - destruct (Z.leb_spec (0x7400 + 0xbb2) (len s)); [|lia].
    rewrite !index_ok by lia. ret.
    destruct (Byte.eqb _ Byte.x04); [ret|]; reflexivity.
  - destruct (Z.leb_spec (0x7400 + 0xbb2) (len s)); [lia|]. reflexivity.
Qed.

(** The Nordic detector on a buffer whose length is at most 0x7400 or at
    least 0x7400 + 0xBB2: it returns, the flag is the vendor check, and
    the error depends on the two candidate checksums only. *)
Lemma ParseFirmwareNordic_eq (f : Firmware) :
  len (raw f) <= 0x7400 \/ 0x7400 + 0xbb2 <= len (raw f) ->
  exists f',
    ParseFirmwareNordic f
    = Returned (f', if nordic_valid (raw f) then None else invalid_crc)
    /\ HasBL f' = nordic_vid (raw f).
Proof.
  intros H. unfold ParseFirmwareNordic, nordic_valid.
  rewrite (nordic_vid_check (raw f) H). ret.
  change (raw (set_HasBL (nordic_vid (raw f)) f)) with (raw f).
  destruct (Z.ltb_spec (len (raw f)) 0x6400) as [H1|H1].
  - destruct (Z.leb_spec 0x6400 (len (raw f))); [lia|].
    eexists. split; reflexivity.
  - destruct (Z.leb_spec 0x6400 (len (raw f))); [|lia]. cbn [andb].
    rewrite nordic_candidate_eq by (change (raw (set_HasBL _ f)) with (raw f); lia).
    ret. change (raw (set_HasBL (nordic_vid (raw f)) f)) with (raw f).
    destruct (nordic_crc_ok (raw f) 0x6400); cbn [orb].
    + eexists. split; reflexivity.
    + change (raw (set_CRC ?c (set_Size ?s (set_LastOffset ?l
                (set_StartOffset 0 (set_HasBL ?b f)))))) with (raw f).
      destruct (Z.ltb_spec (len (raw f)) 0x6800) as [H2|H2].
      * destruct (Z.leb_spec 0x6800 (len (raw f))); [lia|].
        eexists. split; reflexivity.
      * destruct (Z.leb_spec 0x6800 (len (raw f))); [|lia]. cbn [andb].
        rewrite nordic_candidate_eq
          by (change (raw (set_CRC ?c (set_Size ?s (set_LastOffset ?l
                (set_StartOffset 0 (set_HasBL ?b f)))))) with (raw f); lia).
        ret.
        change (raw (set_CRC ?c (set_Size ?s (set_LastOffset ?l
                (set_StartOffset 0 (set_HasBL ?b f)))))) with (raw f).
        destruct (nordic_crc_ok (raw f) 0x6800);
          eexists; split; reflexivity.
Qed.






(** An entity classified as Nordic after the TI attempt found a marker
    keeps the checksum position of the TI attempt. *)
Lemma nordic_entity_keeps_ti_tail :
  exists crc,
    layout_of_result (ParseFirmwareBin nordic_with_marker)
    = Some (0, 0x6400, 0x63ff, crc, 0xE, FIRMWARE_TARGET_TYPE_NORDIC).
Proof.
  eexists. vm_compute. reflexivity.
Qed.


(** ** The bootloader flag of the Nordic detector *)

Lemma nordic_valid_vendor_bytes (s : bytes) (v0 v1 : byte) :
  0x7400 + 0xbb2 <= len s ->
  nordic_valid (blit s (0x7400 + 0xbb0) [v0; v1]) = nordic_valid s.
Proof.
  intros H.
  assert (L2 : len [v0; v1] = 2) by reflexivity.
  assert (Hlen : len (blit s (0x7400 + 0xbb0) [v0; v1]) = len s)
    by (apply blit_length; lia).
  assert (Hcrc : forall size, 2 <= size <= 0x6800 ->
            nordic_crc_ok (blit s (0x7400 + 0xbb0) [v0; v1]) size
            = nordic_crc_ok s size).
  { intros size Hs. unfold nordic_crc_ok, stored_crc_be.
    rewrite blit_firstn by lia.
    rewrite !blit_nth_out by (rewrite ?L2; lia). reflexivity. }
  unfold nordic_valid. rewrite Hlen, !Hcrc by lia. reflexivity.
Qed.

(** C6, as the code has it.  On a buffer whose length is at most 0x7400
    or at least 0x7400 + 0xBB2 the Nordic detector returns, and sets the
    flag exactly when the length is at least 0x7400 + 0xBB2 and the bytes
    at 0x7400 + 0xBB0 are 04 6D; whether it succeeds depends on the two
    candidate checksums only, so it is the same whatever the two vendor
    bytes are. *)
Theorem nordic_bootloader_flag (f : Firmware) :
  len (raw f) <= 0x7400 \/ 0x7400 + 0xbb2 <= len (raw f) ->
  exists f' e,
    ParseFirmwareNordic f = Returned (f', e)
    /\ (HasBL f' = true <->
        0x7400 + 0xbb2 <= len (raw f)
        /\ nth (Z.to_nat (0x7400 + 0xbb0)) (raw f) Byte.x00 = Byte.x04
        /\ nth (Z.to_nat (0x7400 + 0xbb1)) (raw f) Byte.x00 = Byte.x6d)
    /\ (e = None <-> nordic_valid (raw f) = true)
    /\ forall (v0 v1 : byte) (g : Firmware),
         0x7400 + 0xbb2 <= len (raw f) ->
         raw g = blit (raw f) (0x7400 + 0xbb0) [v0; v1] ->
         exists g' e',
           ParseFirmwareNordic g = Returned (g', e')
           /\ (e' = None <-> e = None).
Proof.
  intros H. destruct (ParseFirmwareNordic_eq f H) as (f' & E & Hbl).
  exists f'. exists (if nordic_valid (raw f) then None else invalid_crc).
  split; [exact E|].
  assert (Hv : (if nordic_valid (raw f) then None else invalid_crc) = None
               <-> nordic_valid (raw f) = true).
  { destruct (nordic_valid (raw f)); unfold invalid_crc; split; congruence. }
  split; [|split; [exact Hv|]].
  - rewrite Hbl. unfold nordic_vid.
    rewrite !andb_true_iff, Z.leb_le, !byte_eqb_eq. tauto.
  - intros v0 v1 g Hlen Hg.
    assert (Hg' : len (raw g) <= 0x7400 \/ 0x7400 + 0xbb2 <= len (raw g)).
    { right. rewrite Hg, blit_length; [exact Hlen|lia|].
      change (len [v0; v1]) with 2. lia. }
    destruct (ParseFirmwareNordic_eq g Hg') as (g' & Eg & _).
    exists g'. exists (if nordic_valid (raw g) then None else invalid_crc).
    split; [exact Eg|].
    rewrite Hg, nordic_valid_vendor_bytes by exact Hlen.
    reflexivity.
Qed.

Lemma nordic_bootloader_flag_witness :
  exists f' e,
    ParseFirmwareNordic (entity_of vid_at_end_blob) = Returned (f', e)
    /\ (HasBL f' = true <->
        0x7400 + 0xbb2 <= len (raw (entity_of vid_at_end_blob))
        /\ nth (Z.to_nat (0x7400 + 0xbb0)) (raw (entity_of vid_at_end_blob))
               Byte.x00 = Byte.x04
        /\ nth (Z.to_nat (0x7400 + 0xbb1)) (raw (entity_of vid_at_end_blob))
               Byte.x00 = Byte.x6d)
    /\ (e = None <-> nordic_valid (raw (entity_of vid_at_end_blob)) = true)
    /\ forall (v0 v1 : byte) (g : Firmware),
         0x7400 + 0xbb2 <= len (raw (entity_of vid_at_end_blob)) ->
         raw g = blit (raw (entity_of vid_at_end_blob)) (0x7400 + 0xbb0) [v0; v1] ->
         exists g' e',
           ParseFirmwareNordic g = Returned (g', e')
           /\ (e' = None <-> e = None).
Proof.
  apply (nordic_bootloader_flag (entity_of vid_at_end_blob)).
  right. vm_compute. congruence.
Defined.

(** C6 as stated does not hold: on a buffer of exactly 0x7400 + 0xBB2
    bytes that ends with 04 6D the flag is set, although the length does
    not exceed 0x7400 + 0xBB2. *)
Lemma nordic_flag_at_exact_length :
  exists f' e,
    ParseFirmwareNordic (entity_of vid_at_end_blob) = Returned (f', e)
    /\ HasBL f' = true
    /\ len vid_at_end_blob = 0x7400 + 0xbb2
    /\ nordic_vid_as_specified vid_at_end_blob = false.
Proof.
  destruct (ParseFirmwareNordic_eq (entity_of vid_at_end_blob))
    as (f' & E & Hbl).
  { right. vm_compute. congruence. }
  exists f'.
  exists (if nordic_valid (raw (entity_of vid_at_end_blob))
          then None else invalid_crc).
  split; [exact E|].
  split; [rewrite Hbl; vm_compute; reflexivity|].
  split; vm_compute; reflexivity.
Qed.

(** ** Entities classified as TI hold their image window *)

Lemma Index_from_found (sep : bytes) (s : bytes) :
  sep <> [] ->
  forall i, 0 <= i ->
    Index_from sep i s = -1
    \/ (i <= Index_from sep i s
        /\ Index_from sep i s - i + len sep <= len s).
Proof.
  intros Hne. induction s as [|b s IH]; intros i Hi.
  - destruct sep; [congruence|]. left. reflexivity.
  - cbn [Index_from].
    destruct (is_prefix sep (b :: s)) eqn:E.
    + right. apply is_prefix_length in E. unfold len. lia.
    + destruct (IH (i + 1) ltac:(lia)) as [H|[H1 H2]]; [now left|].
      right. unfold len in *. cbn [List.length]. lia.
Qed.

Lemma Index_found (s sep : bytes) :
  sep <> [] -> 0 <= Index s sep -> Index s sep + len sep <= len s.
Proof.
  intros Hne H. unfold Index in *.
  destruct (Index_from_found sep s Hne 0 ltac:(lia)) as [E|[_ E]]; lia.
Qed.

(** A successful TI attempt: the marker was found at [pos] behind the
    start offset, inside the buffer, and the size is [pos + 4] in 16
    bits. *)
Lemma ParseFirmwareTI_window (f f' : Firmware) :
  ParseFirmwareTI f = Returned (f', None) ->
  raw f' = raw f
  /\ (StartOffset f' = 0 \/ StartOffset f' = 0x400)
  /\ exists pos,
       0 <= pos
       /\ StartOffset f' + pos + 4 <= len (raw f)
       /\ Size f' = u16 (u16 pos + 4).
Proof.
  unfold ParseFirmwareTI. intros H.
  bind_inv H. bind_inv H. bind_inv H.
  assert (Hraw : forall b v, raw (set_StartOffset v (set_HasBL b f)) = raw f)
    by reflexivity.
  assert (Hst : forall b v, StartOffset (set_StartOffset v (set_HasBL b f)) = v)
    by reflexivity.
  assert (Hfin : forall (st pos : Z) (rest : bytes),
            (st = 0 \/ st = 0x400) ->
            slice (raw f) st (len (raw f)) = Returned rest ->
            pos = Index rest end_marker ->
            (pos <? 0) = false ->
            0 <= pos /\ st + pos + 4 <= len (raw f)).
  { intros st pos rest Hs Es -> Hp. apply Z.ltb_ge in Hp.
    apply slice_length in Es as (Ls & Hlo & _).
    pose proof (Index_found rest end_marker ltac:(discriminate) Hp) as Hi.
    change (len end_marker) with 4 in Hi. lia. }
  destruct a1; cbv zeta iota in H; rewrite Hraw, Hst in H; bind_inv H;
    match type of H with
    | (if ?c then _ else _) = _ => destruct c eqn:Epos
    end;
    try discriminate;
    match goal with
    | Es : slice (raw f) ?st _ = Returned ?rest |- _ =>
        destruct (Hfin st (Index rest end_marker) rest) as [Hp0 Hp1];
          [auto | exact Es | reflexivity | exact Epos |]
    end;
    bind_inv H; bind_inv H; bind_inv H;
    match type of H with
    | (if ?c then _ else _) = _ => destruct c
    end;
    try discriminate;
    injection H as <-; fields;
    (split; [reflexivity|]); (split; [auto|]);
    eexists; (split; [exact Hp0|]); (split; [exact Hp1|]); reflexivity.
Qed.

Lemma classify_TI (f f' : Firmware) :
  classify f = Returned (Some f', None) ->
  TargetType f' = FIRMWARE_TARGET_TYPE_TI ->
  exists f1,
    ParseFirmwareTI (set_TargetType FIRMWARE_TARGET_TYPE_UNKNOWN f)
    = Returned (f1, None)
    /\ f' = set_TargetType FIRMWARE_TARGET_TYPE_TI f1.
Proof.
  unfold classify. intros H Ht. cbv zeta in H.
  bind_inv H. destruct a as [f1 [e1|]].
  - bind_inv H. destruct a as [f2 [e2|]]; [discriminate|].
    injection H as <-. discriminate.
  - injection H as <-. eauto.
Qed.

(** Every entity the engine classifies as TI with size 0x6000 holds its
    image window. *)
Lemma classified_window (f f' : Firmware) :
  classify f = Returned (Some f', None) ->
  TargetType f' = FIRMWARE_TARGET_TYPE_TI ->
  Size f' = 0x6000 ->
  window_ok f'.
Proof.
  intros Hc Ht Hs.
  destruct (classify_TI f f' Hc Ht) as (f1 & E & ->).
  apply ParseFirmwareTI_window in E as (Hr & Hst & pos & Hp0 & Hp1 & Hsz).
  change (Size (set_TargetType FIRMWARE_TARGET_TYPE_TI f1)) with (Size f1) in Hs.
  unfold window_ok.
  change (StartOffset (set_TargetType FIRMWARE_TARGET_TYPE_TI f1))
    with (StartOffset f1).
  change (Size (set_TargetType FIRMWARE_TARGET_TYPE_TI f1)) with (Size f1).
  change (raw (set_TargetType FIRMWARE_TARGET_TYPE_TI f1)) with (raw f1).
  rewrite Hr, Hs.
  assert (Hpos : 0x6000 <= pos + 4).
  { rewrite Hs in Hsz. unfold u16 in Hsz.
    rewrite Zplus_mod_idemp_l in Hsz.
    pose proof (Z.div_mod (pos + 4) 65536 ltac:(lia)) as Hdm.
    assert (0 <= (pos + 4) / 65536) by (apply Z.div_pos; lia).
    lia. }
  repeat split; try lia.
Qed.

(** The patcher on an entity as the engine classifies it. *)
Lemma downgrade_of_classified (f f' : Firmware) :
  classify f = Returned (Some f', None) ->
  TargetType f' = FIRMWARE_TARGET_TYPE_TI ->
  Size f' = 0x6000 ->
  exists out,
    BaseImageDowngradeFromBL0302ToBL0301 f' = Returned (f', (Some out, None))
    /\ patched_image_ok out.
Proof.
  intros Hc Ht Hs. apply downgrade_returns; try assumption.
  now apply (classified_window f).
Qed.

(** ** The substitutions of the patcher and their order *)

Lemma downgrade_patches_rules :
  downgrade_patches = map rule_patch downgrade_rules.
Proof. reflexivity. Qed.

Lemma rule_old_length (r : rule) :
  List.length (rule_old r) = Datatypes.S (List.length (r_pre r) + List.length (r_post r)).
Proof. unfold rule_old. rewrite length_app. cbn [List.length]. lia. Qed.

Lemma rule_new_length (r : rule) :
  List.length (rule_new r) = List.length (rule_old r).
Proof. unfold rule_new, rule_old. rewrite !length_app. reflexivity. Qed.

Lemma rule_old_nonempty (r : rule) : rule_old r <> [].
Proof. unfold rule_old. destruct (r_pre r); discriminate. Qed.

Lemma rule_old_at (r : rule) :
  nth (List.length (r_pre r)) (rule_old r) Byte.x00 = r_x r.
Proof. unfold rule_old. rewrite app_nth2, Nat.sub_diag by lia. reflexivity. Qed.

Lemma rule_new_at (r : rule) :
  nth (List.length (r_pre r)) (rule_new r) Byte.x00 = r_y r.
Proof. unfold rule_new. rewrite app_nth2, Nat.sub_diag by lia. reflexivity. Qed.

Lemma rule_new_elsewhere (r : rule) (t : nat) :
  t <> List.length (r_pre r) ->
  nth t (rule_new r) Byte.x00 = nth t (rule_old r) Byte.x00.
Proof.
  intros Ht. unfold rule_new, rule_old.
  destruct (Nat.lt_ge_cases t (List.length (r_pre r))) as [Hlt|Hge].
  - now rewrite !app_nth1 by exact Hlt.
  - rewrite !app_nth2 by exact Hge.
    destruct (t - List.length (r_pre r))%nat eqn:E; [lia|reflexivity].
Qed.

(** *** Occurrences *)

Lemma is_prefix_nth (p s : bytes) :
  is_prefix p s = true ->
  forall t, (t < List.length p)%nat -> nth t s Byte.x00 = nth t p Byte.x00.
Proof.
  revert s. induction p as [|a p IH]; intros [|b s] H t Ht;
    cbn [List.length] in Ht; try lia; try discriminate.
  cbn [is_prefix] in H. apply andb_prop in H as [Hab H].
  apply byte_eqb_eq in Hab. subst b.
  destruct t as [|t]; [reflexivity|]. cbn [nth]. apply IH; [exact H|lia].
Qed.

Lemma is_prefix_intro (p s : bytes) :
  (List.length p <= List.length s)%nat ->
  (forall t, (t < List.length p)%nat -> nth t s Byte.x00 = nth t p Byte.x00) ->
  is_prefix p s = true.
Proof.
  revert s. induction p as [|a p IH]; intros s Hl Hn; [destruct s; reflexivity|].
  destruct s as [|b s]; cbn [List.length] in *; [lia|].
  cbn [is_prefix]. apply andb_true_intro. split.
  - apply byte_eqb_eq. symmetry. exact (Hn O ltac:(lia)).
  - apply IH; [lia|]. intros t Ht. exact (Hn (Datatypes.S t) ltac:(lia)).
Qed.

Lemma occs_length (old s : bytes) : List.length (occs old s) = List.length s.
Proof. induction s; cbn [occs List.length]; congruence. Qed.

Lemma occs_nth (old s : bytes) (i : nat) :
  old <> [] ->
  nth i (occs old s) false = is_prefix old (skipn i s).
Proof.
  intros Hne. revert i. induction s as [|b s IH]; intros i.
  - rewrite skipn_nil. destruct old; [congruence|]. now destruct i.
  - destruct i as [|i]; [reflexivity|]. cbn [occs nth skipn]. apply IH.
Qed.

(** An occurrence, byte by byte. *)
Lemma occ_iff (old s : bytes) (i : nat) :
  old <> [] ->
  is_prefix old (skipn i s) = true
  <-> (i + List.length old <= List.length s)%nat
      /\ forall t, (t < List.length old)%nat ->
                   nth (i + t) s Byte.x00 = nth t old Byte.x00.
Proof.
  intros Hne. split.
  - intros H. split.
    + apply is_prefix_length in H. rewrite length_skipn in H.
      destruct old as [|a old]; [congruence|].
      cbn [List.length] in *. lia.
    + intros t Ht. rewrite <- nth_skipn. now apply is_prefix_nth.
  - intros [Hl Hn]. apply is_prefix_intro.
    + rewrite length_skipn. lia.
    + intros t Ht. rewrite nth_skipn. now apply Hn.
Qed.

(** *** [Replace] rewrites the bytes that fire *)

Lemma fired_cons_0 (b : bool) (ms : list bool) (k : nat) :
  fired (b :: ms) k 0 = (k =? 0)%nat && b.
Proof. unfold fired. destruct k; reflexivity. Qed.

Lemma fired_cons_S (b : bool) (ms : list bool) (k p : nat) :
  fired (b :: ms) k (Datatypes.S p)
  = if (k =? Datatypes.S p)%nat then b else fired ms k p.
Proof.
  unfold fired.
  destruct (Nat.eqb_spec k (Datatypes.S p)) as [->|Hne].
  - rewrite Nat.leb_refl, Nat.sub_diag. reflexivity.
  - destruct (Nat.leb_spec k p) as [Hle|Hgt].
    + destruct (Nat.leb_spec k (Datatypes.S p)); [|lia].
      replace (Datatypes.S p - k)%nat with (Datatypes.S (p - k)) by lia.
      reflexivity.
    + destruct (Nat.leb_spec k (Datatypes.S p)); [lia|reflexivity].
Qed.

Lemma sel_length (n : nat) (os : list bool) :
  forall skip, List.length (sel n skip os) = List.length os.
Proof.
  induction os as [|o os IH]; intros skip; [reflexivity|].
  cbn [sel]. destruct skip; [destruct o|]; cbn [List.length]; now rewrite IH.
Qed.

Lemma sel_skip_false (n : nat) (os : list bool) :
  forall skip t, (t < skip)%nat -> nth t (sel n skip os) false = false.
Proof.
  induction os as [|o os IH]; intros skip t Ht.
  - now destruct t.
  - destruct skip as [|m]; [lia|]. cbn [sel].
    destruct t as [|t]; [reflexivity|]. cbn [nth]. apply IH. lia.
Qed.

(** A selected position is an occurrence. *)
Lemma sel_sub (n : nat) (os : list bool) :
  forall skip i, nth i (sel n skip os) false = true -> nth i os false = true.
Proof.
  induction os as [|o os IH]; intros skip i H.
  - now destruct i.
  - cbn [sel] in H. destruct skip as [|m].
    + destruct o; destruct i as [|i]; cbn [nth] in *;
        try discriminate; try reflexivity; eapply IH; eassumption.
    + destruct i as [|i]; cbn [nth] in *; [discriminate|].
      eapply IH; eassumption.
Qed.

Lemma replace_from_nth (r : rule) (s : bytes) :
  forall skip j,
    (j + skip < List.length s)%nat ->
    nth j (replace_from (rule_old r) (rule_new r) skip s) Byte.x00
    = if fired (sel (List.length (rule_old r)) skip (occs (rule_old r) s))
               (List.length (r_pre r)) (j + skip)
      then r_y r
      else nth (j + skip) s Byte.x00.
Proof.
  pose proof (rule_old_length r) as Hn.
  induction s as [|b s IH]; intros skip j Hj; cbn [List.length] in Hj; [lia|].
  cbn [replace_from occs sel]. destruct skip as [|m].
  - rewrite Nat.add_0_r.
    destruct (is_prefix (rule_old r) (b :: s)) eqn:E.
    + destruct (Nat.lt_ge_cases j (List.length (rule_old r))) as [Hlt|Hge].
      * rewrite app_nth1 by (rewrite rule_new_length; exact Hlt).
        destruct (Nat.eq_dec j (List.length (r_pre r))) as [->|Hne].
        -- unfold fired. rewrite Nat.leb_refl, Nat.sub_diag. cbn [nth andb].
           apply rule_new_at.
        -- assert (Hf : fired (true :: sel (List.length (rule_old r))
                                 (Nat.pred (List.length (rule_old r)))
                                 (occs (rule_old r) s))
                              (List.length (r_pre r)) j = false).
           { unfold fired. destruct (Nat.leb_spec (List.length (r_pre r)) j);
               [|reflexivity].
             cbn [andb].
             destruct (j - List.length (r_pre r))%nat as [|t] eqn:Et; [lia|].
             cbn [nth]. apply sel_skip_false. lia. }
           rewrite Hf, rule_new_elsewhere by exact Hne.
           symmetry. now apply is_prefix_nth.
      * rewrite app_nth2 by (rewrite rule_new_length; exact Hge).
        rewrite rule_new_length.
        destruct j as [|p]; [lia|].
        rewrite IH by lia.
        replace (Datatypes.S p - List.length (rule_old r)
                 + Nat.pred (List.length (rule_old r)))%nat with p by lia.
        rewrite fired_cons_S.
        destruct (Nat.eqb_spec (List.length (r_pre r)) (Datatypes.S p)); [lia|].
        reflexivity.
    + destruct j as [|p].
      * rewrite fired_cons_0, andb_false_r. reflexivity.
      * cbn [nth]. rewrite IH by lia. rewrite Nat.add_0_r, fired_cons_S.
        destruct (Nat.eqb_spec (List.length (r_pre r)) (Datatypes.S p)) as [Hk|Hk];
          [|reflexivity].
        unfold fired. destruct (Nat.leb_spec (List.length (r_pre r)) p); [lia|].
        reflexivity.
  - rewrite IH by lia.
    replace (j + Datatypes.S m)%nat with (Datatypes.S (j + m)) by lia.
    rewrite fired_cons_S. cbn [nth].
    destruct (Nat.eqb_spec (List.length (r_pre r)) (Datatypes.S (j + m))) as [Hk|Hk];
      [|reflexivity].
    unfold fired. destruct (Nat.leb_spec (List.length (r_pre r)) (j + m)); [lia|].
    reflexivity.
Qed.

Lemma poke_length (y : byte) (f : nat -> bool) (s : bytes) :
  List.length (poke y f s) = List.length s.
Proof. unfold poke. now rewrite length_map, length_seq. Qed.

Lemma nth_map_seq {A : Type} (g : nat -> A) (n j : nat) (d : A) :
  (j < n)%nat -> nth j (map g (seq 0 n)) d = g j.
Proof.
  intros Hj.
  rewrite (nth_indep _ d (g O)) by (rewrite length_map, length_seq; exact Hj).
  rewrite (map_nth g (seq 0 n) O j), seq_nth by exact Hj. reflexivity.
Qed.

Lemma poke_nth (y : byte) (f : nat -> bool) (s : bytes) (j : nat) :
  (j < List.length s)%nat ->
  nth j (poke y f s) Byte.x00 = if f j then y else nth j s Byte.x00.
Proof.
  intros Hj. unfold poke. now rewrite nth_map_seq.
Qed.

Lemma apply_rule_length (r : rule) (s : bytes) :
  List.length (apply_rule r s) = List.length s.
Proof.
  unfold apply_rule. apply Replace_length.
  - apply rule_old_nonempty.
  - apply rule_new_length.
Qed.

(** [Replace] with a rule rewrites to [r_y] the bytes that fire and
    leaves the others. *)
Lemma apply_rule_nth (r : rule) (s : bytes) (j : nat) :
  (j < List.length s)%nat ->
  nth j (apply_rule r s) Byte.x00
  = if fires r s j then r_y r else nth j s Byte.x00.
Proof.
  intros Hj. unfold apply_rule, Replace, fires, starts.
  rewrite replace_from_nth by lia. now rewrite Nat.add_0_r.
Qed.

(** A byte that fires is the byte the rule rewrites. *)
Lemma fires_byte (r : rule) (s : bytes) (j : nat) :
  fires r s j = true ->
  (j < List.length s)%nat /\ nth j s Byte.x00 = r_x r
  /\ (List.length (r_pre r) <= j)%nat
  /\ is_prefix (rule_old r) (skipn (j - List.length (r_pre r)) s) = true.
Proof.
  unfold fires, fired, starts. intros H.
  apply andb_prop in H as [Hk H]. apply Nat.leb_le in Hk.
  apply sel_sub in H. rewrite occs_nth in H by apply rule_old_nonempty.
  pose proof H as Hocc.
  apply occ_iff in H as [Hl Hn]; [|apply rule_old_nonempty].
  pose proof (rule_old_length r) as Hlen.
  specialize (Hn (List.length (r_pre r)) ltac:(lia)).
  rewrite rule_old_at in Hn.
  replace (j - List.length (r_pre r) + List.length (r_pre r))%nat with j in Hn
    by lia.
  repeat split; try assumption; lia.
Qed.

(** *** Occurrences of one rule after another rule was applied *)

Lemma rule_old_context (r : rule) (t : nat) :
  (t < List.length (rule_old r))%nat -> t <> List.length (r_pre r) ->
  In (nth t (rule_old r) Byte.x00) (r_pre r ++ r_post r).
Proof.
  intros Ht Hk. rewrite rule_old_length in Ht. unfold rule_old.
  apply in_or_app.
  destruct (Nat.lt_ge_cases t (List.length (r_pre r))) as [Hlt|Hge].
  - left. rewrite app_nth1 by exact Hlt. now apply nth_In.
  - right. rewrite app_nth2 by exact Hge.
    destruct (t - List.length (r_pre r))%nat as [|u] eqn:E; [lia|].
    cbn [nth]. apply nth_In. lia.
Qed.

Lemma stable_context (p q : rule) (c : byte) :
  stable_b p q = true -> In c (r_pre p ++ r_post p) ->
  c <> r_x q /\ c <> r_y q.
Proof.
  unfold stable_b. rewrite forallb_forall. intros H Hin.
  specialize (H c Hin). apply andb_prop in H as [H1 H2].
  apply negb_true_iff in H1, H2.
  split; now apply byte_eqb_neq.
Qed.

Lemma occ_after (p q : rule) (s : bytes) (i : nat) :
  stable_b p q = true ->
  Byte.eqb (r_x p) (r_y q) = false ->
  is_prefix (rule_old p) (skipn i (apply_rule q s))
  = is_prefix (rule_old p) (skipn i s)
    && negb (fires q s (i + List.length (r_pre p))).
Proof.
  intros Hst Hxy. apply byte_eqb_neq in Hxy.
  pose proof (rule_old_length p) as Hlen.
  pose proof (rule_old_nonempty p) as Hne.
  assert (Hno : forall t, (t < List.length (rule_old p))%nat ->
                          nth t (rule_old p) Byte.x00 <> r_y q).
  { intros t Ht.
    destruct (Nat.eq_dec t (List.length (r_pre p))) as [->|Hk].
    - now rewrite rule_old_at.
    - now apply (stable_context p q), rule_old_context. }
  apply Bool.eq_iff_eq_true.
  rewrite andb_true_iff, negb_true_iff, !occ_iff by exact Hne.
  rewrite apply_rule_length. split.
  - intros [Hl Hn].
    assert (Hquiet : forall t, (t < List.length (rule_old p))%nat ->
                               fires q s (i + t) = false).
    { intros t Ht. specialize (Hn t Ht).
      rewrite apply_rule_nth in Hn by lia.
      destruct (fires q s (i + t)); [|reflexivity].
      exfalso. now apply (Hno t Ht). }
    split; [split; [exact Hl|]|].
    + intros t Ht. specialize (Hn t Ht).
      rewrite apply_rule_nth in Hn by lia.
      now rewrite Hquiet in Hn.
    + apply Hquiet. lia.
  - intros [[Hl Hn] Hq]. split; [exact Hl|].
    intros t Ht. rewrite apply_rule_nth by lia.
    destruct (fires q s (i + t)) eqn:F; [|now apply Hn].
    exfalso. pose proof (fires_byte _ _ _ F) as (_ & Hx & _).
    rewrite (Hn t Ht) in Hx.
    destruct (Nat.eq_dec t (List.length (r_pre p))) as [->|Hk].
    + congruence.
    + destruct (stable_context p q _ Hst (rule_old_context p t Ht Hk))
        as [Hcx _].
      now apply Hcx.
Qed.

(** *** Patterns that cannot overlap themselves *)

Lemma no_overlap (old s : bytes) (i d : nat) :
  old <> [] -> borderless_b old = true ->
  (0 < d < List.length old)%nat ->
  is_prefix old (skipn i s) = true ->
  is_prefix old (skipn (i + d) s) = true ->
  False.
Proof.
  intros Hne Hb Hd H1 H2.
  unfold borderless_b in Hb. rewrite forallb_forall in Hb.
  specialize (Hb d). rewrite in_seq in Hb.
  specialize (Hb ltac:(lia)). apply negb_true_iff in Hb.
  apply occ_iff in H1 as [_ N1]; [|exact Hne].
  apply occ_iff in H2 as [_ N2]; [|exact Hne].
  rewrite is_prefix_intro in Hb; [discriminate| |].
  - rewrite length_skipn. lia.
  - intros t Ht. rewrite length_skipn in Ht.
    rewrite nth_skipn.
    rewrite <- (N1 (d + t)%nat) by lia.
    rewrite <- (N2 t) by lia.
    f_equal. lia.
Qed.

Lemma sel_borderless (old s : bytes) :
  old <> [] -> borderless_b old = true ->
  forall skip,
    (forall t, (t < skip)%nat -> nth t (occs old s) false = false) ->
    sel (List.length old) skip (occs old s) = occs old s.
Proof.
  intros Hne Hb. induction s as [|b s IH]; intros skip Hs; [reflexivity|].
  cbn [occs sel]. destruct skip as [|m].
  - destruct (is_prefix old (b :: s)) eqn:E.
    + f_equal. apply IH. intros t Ht.
      rewrite occs_nth by exact Hne.
      destruct (is_prefix old (skipn t s)) eqn:E2; [exfalso|reflexivity].
      apply (no_overlap old (b :: s) 0 (Datatypes.S t) Hne Hb).
      * destruct old; cbn [List.length] in *; [congruence|lia].
      * exact E.
      * exact E2.
    + f_equal. apply IH. intros t Ht. lia.
  - pose proof (Hs O ltac:(lia)) as H0. cbn [occs nth] in H0.
    rewrite H0. f_equal. apply IH. intros t Ht.
    exact (Hs (Datatypes.S t) ltac:(lia)).
Qed.

Lemma starts_borderless (old s : bytes) :
  old <> [] -> borderless_b old = true -> starts old s = occs old s.
Proof.
  intros Hne Hb. unfold starts. apply sel_borderless; try assumption.
  intros t Ht. lia.
Qed.

(** *** Rules that cannot fire at the same position *)

Lemma last_differs_bytes (p q : rule) :
  last_differs p q = true ->
  exists a b,
    a <> b
    /\ (0 < List.length (r_pre p))%nat /\ (0 < List.length (r_pre q))%nat
    /\ nth (Nat.pred (List.length (r_pre p))) (rule_old p) Byte.x00 = a
    /\ nth (Nat.pred (List.length (r_pre q))) (rule_old q) Byte.x00 = b.
Proof.
  unfold last_differs.
  destruct (rev (r_pre p)) as [|a lp] eqn:Ep; [discriminate|].
  destruct (rev (r_pre q)) as [|b lq] eqn:Eq; [discriminate|].
  intros H. apply negb_true_iff, byte_eqb_neq in H.
  assert (Hp : r_pre p = rev lp ++ [a])
    by (rewrite <- (rev_involutive (r_pre p)), Ep; reflexivity).
  assert (Hq : r_pre q = rev lq ++ [b])
    by (rewrite <- (rev_involutive (r_pre q)), Eq; reflexivity).
  exists a, b. split; [exact H|].
  unfold rule_old. rewrite Hp, Hq, !length_app. cbn [List.length].
  repeat split; try lia.
  - rewrite app_nth1 by (rewrite length_app; cbn [List.length]; lia).
    rewrite app_nth2 by lia.
    replace (Nat.pred (List.length (rev lp) + 1) - List.length (rev lp))%nat
      with O by lia.
    reflexivity.
  - rewrite app_nth1 by (rewrite length_app; cbn [List.length]; lia).
    rewrite app_nth2 by lia.
    replace (Nat.pred (List.length (rev lq) + 1) - List.length (rev lq))%nat
      with O by lia.
    reflexivity.
Qed.

Lemma clash_isolated (p q : rule) (s : bytes) (i : nat) :
  Byte.eqb (r_x p) (r_x q) = false \/ last_differs p q = true ->
  is_prefix (rule_old p) (skipn i s) = true ->
  fires q s (i + List.length (r_pre p)) = false.
Proof.
  intros Hc Hocc.
  destruct (fires q s (i + List.length (r_pre p))) eqn:F; [exfalso|reflexivity].
  apply fires_byte in F as (_ & Hx & Hk & Hq).
  pose proof (rule_old_length p) as Lp. pose proof (rule_old_length q) as Lq.
  apply occ_iff in Hocc as [_ Np]; [|apply rule_old_nonempty].
  apply occ_iff in Hq as [_ Nq]; [|apply rule_old_nonempty].
  destruct Hc as [Hc|Hc].
  - apply byte_eqb_neq in Hc. apply Hc.
    rewrite <- Hx, <- (rule_old_at p). symmetry. apply Np. lia.
  - apply last_differs_bytes in Hc as (a & b & Hab & Hp0 & Hq0 & Ha & Hb).
    apply Hab. rewrite <- Ha, <- Hb.
    rewrite <- (Np (Nat.pred (List.length (r_pre p)))) by lia.
    rewrite <- (Nq (Nat.pred (List.length (r_pre q)))) by lia.
    f_equal. lia.
Qed.

(** *** A rule fires after another rule where it fired before, except
    where the other rule fired *)

Lemma occs_isolated (p q : rule) (s : bytes) :
  stable_b p q = true ->
  Byte.eqb (r_x p) (r_y q) = false ->
  Byte.eqb (r_x p) (r_x q) = false \/ last_differs p q = true ->
  occs (rule_old p) (apply_rule q s) = occs (rule_old p) s.
Proof.
  intros Hst Hxy Hiso. pose proof (rule_old_nonempty p) as Hne.
  apply (nth_ext _ _ false false).
  - now rewrite !occs_length, apply_rule_length.
  - intros i _. rewrite !occs_nth, occ_after by assumption.
    destruct (is_prefix (rule_old p) (skipn i s)) eqn:E; [|reflexivity].
    rewrite (clash_isolated p q s i) by auto. reflexivity.
Qed.

Lemma fires_after (p q : rule) (s : bytes) (j : nat) :
  compat_b p q = true ->
  fires p (apply_rule q s) j = fires p s j && negb (fires q s j).
Proof.
  unfold compat_b. intros H.
  apply andb_prop in H as [H Hy]. apply andb_prop in H as [H Hiso].
  apply andb_prop in H as [Hst Hxy]. apply negb_true_iff in Hxy.
  pose proof (rule_old_nonempty p) as Hne.
  assert (Hcases : borderless_b (rule_old p) = true
                   \/ (Byte.eqb (r_x p) (r_x q) = false
                       \/ last_differs p q = true)).
  { apply orb_prop in Hiso as [Hiso|Hiso];
      [apply orb_prop in Hiso as [Hb|Hiso]|]; auto.
    apply negb_true_iff in Hiso. auto. }
  destruct Hcases as [Hb|Hiso'].
  - (* no occurrence of [p] overlaps another one *)
    unfold fires, fired.
    rewrite !starts_borderless, !occs_nth by assumption.
    rewrite occ_after by assumption.
    destruct (Nat.leb_spec (List.length (r_pre p)) j) as [Hk|Hk];
      [|reflexivity].
    cbn [andb].
    replace (j - List.length (r_pre p) + List.length (r_pre p))%nat with j
      by lia.
    reflexivity.
  - (* [q] never fires on an occurrence of [p] *)
    unfold fires at 1, starts.
    rewrite (occs_isolated p q s Hst Hxy Hiso').
    fold (starts (rule_old p) s). fold (fires p s j).
    destruct (fires p s j) eqn:F; [|reflexivity].
    apply fires_byte in F as (_ & _ & Hk & Hocc).
    apply (clash_isolated p q s) in Hocc; [|exact Hiso'].
    replace (j - List.length (r_pre p) + List.length (r_pre p))%nat with j
      in Hocc by lia.
    now rewrite Hocc.
Qed.

(** Two compatible rules can be applied in either order. *)
Lemma rules_commute (p q : rule) :
  compat_b p q = true -> compat_b q p = true ->
  forall s : bytes, apply_rule p (apply_rule q s) = apply_rule q (apply_rule p s).
Proof.
  intros Hpq Hqp s.
  apply (nth_ext _ _ Byte.x00 Byte.x00).
  - now rewrite !apply_rule_length.
  - intros j Hj. rewrite !apply_rule_length in Hj.
    rewrite !apply_rule_nth by (rewrite ?apply_rule_length; exact Hj).
    rewrite !fires_after by assumption.
    destruct (fires p s j) eqn:Fp; destruct (fires q s j) eqn:Fq;
      cbn [andb negb]; try reflexivity.
    apply fires_byte in Fp as (_ & Xp & _).
    apply fires_byte in Fq as (_ & Xq & _).
    unfold compat_b in Hpq. apply andb_prop in Hpq as [_ Hy].
    apply orb_prop in Hy as [Hy|Hy].
    + apply negb_true_iff, byte_eqb_neq in Hy. congruence.
    + apply byte_eqb_eq in Hy. congruence.
Qed.

(** *** The fourteen substitutions in any order *)

Lemma ord_pairs_b_sound {A : Type} (R : A -> A -> bool) (l : list A) :
  ord_pairs_b R l = true -> ForallOrdPairs (fun a b => R a b = true) l.
Proof.
  induction l as [|a l IH]; intros H; [constructor|].
  cbn [ord_pairs_b] in H. apply andb_prop in H as [H1 H2].
  constructor; [|now apply IH].
  apply Forall_forall. now apply forallb_forall.
Qed.

Lemma downgrade_rules_compatible :
  ord_pairs_b (fun p q => compat_b p q && compat_b q p) downgrade_rules = true.
Proof. vm_compute. reflexivity. Qed.

Lemma commute_patch_refl (p : bytes * bytes) : commute_patch p p.
Proof. intros s. reflexivity. Qed.

Lemma commute_patch_sym (p q : bytes * bytes) :
  commute_patch p q -> commute_patch q p.
Proof. intros H s. symmetry. apply H. Qed.

Lemma compatible_rules_commute (p q : rule) :
  compat_b p q && compat_b q p = true ->
  commute_patch (rule_patch p) (rule_patch q).
Proof.
  intros H. apply andb_prop in H as [Hpq Hqp]. intros s.
  exact (rules_commute q p Hqp Hpq s).
Qed.

(** Any two of the fourteen substitutions can be applied in either
    order. *)
Lemma downgrade_patches_commute (p q : bytes * bytes) :
  In p downgrade_patches -> In q downgrade_patches -> commute_patch p q.
Proof.
  rewrite downgrade_patches_rules, !in_map_iff.
  intros (rp & <- & Hp) (rq & <- & Hq).
  pose proof (ord_pairs_b_sound _ _ downgrade_rules_compatible) as Hall.
  destruct (ForallOrdPairs_In Hall rp rq Hp Hq) as [->|[H|H]].
  - apply commute_patch_refl.
  - now apply compatible_rules_commute.
  - now apply commute_patch_sym, compatible_rules_commute.
Qed.

(** Substitutions that commute two by two give the same buffer in any
    order. *)
Lemma apply_patches_permutation (l l' : list (bytes * bytes)) :
  Permutation l l' ->
  (forall p q, In p l -> In q l -> commute_patch p q) ->
  forall s : bytes, apply_patches l' s = apply_patches l s.
Proof.
  unfold apply_patches.
  induction 1 as [|x l l' Hperm IH|x y l|l l' l'' H1 IH1 H2 IH2];
    intros Hc s; cbn [fold_left].
  - reflexivity.
  - apply IH. intros p q Hp Hq. apply Hc; now right.
  - f_equal. apply (Hc x y); cbn [In]; auto.
  - rewrite IH2, IH1; [reflexivity|exact Hc|].
    intros p q Hp Hq.
    apply Hc; eapply Permutation_in; try eassumption;
      now apply Permutation_sym.
Qed.

(** C9, as the code has it.  The patterns are not pairwise disjoint, but
    every substitution rewrites one byte by the same byte map and leaves
    the matches of the other substitutions alone, or rewrites the same
    byte to the same value: applied in any order, the fourteen
    substitutions yield the buffer they yield in the listed order. *)
Theorem downgrade_patches_any_order (ps : list (bytes * bytes)) (s : bytes) :
  Permutation downgrade_patches ps ->
  apply_patches ps s = apply_patches downgrade_patches s.
Proof.
  intros Hperm. apply apply_patches_permutation; [exact Hperm|].
  apply downgrade_patches_commute.
Qed.

Lemma downgrade_patches_any_order_witness :
  apply_patches (rev downgrade_patches)
    [Byte.x05; Byte.x79; Byte.x19; Byte.x7f; Byte.x1a; Byte.x79; Byte.x7f;
     Byte.x1a; Byte.x79; Byte.x7f; Byte.x19]
  = apply_patches downgrade_patches
      [Byte.x05; Byte.x79; Byte.x19; Byte.x7f; Byte.x1a; Byte.x79; Byte.x7f;
       Byte.x1a; Byte.x79; Byte.x7f; Byte.x19].
Proof.
  apply (downgrade_patches_any_order (rev downgrade_patches)).
  apply Permutation_rev.
Defined.

(** C9 as stated does not hold: the pattern 79 19 of the tenth
    substitution lies within the pattern 05 79 19 of the fourteenth, so
    their occurrences overlap in the buffer 05 79 19. *)
Lemma downgrade_patterns_overlap :
  ~ overlap_free (map fst downgrade_patches).
Proof.
  intros H.
  specialize (H [Byte.x79; Byte.x19] [Byte.x05; Byte.x79; Byte.x19]
                [Byte.x05; Byte.x79; Byte.x19] 1%nat 0%nat).
  destruct H as [H|H]; try (cbn in H; lia); try reflexivity.
  - cbn. do 9 right. left. reflexivity.
  - cbn. do 13 right. left. reflexivity.
  - discriminate.
Qed.

(** In the listed order the fourteenth substitution finds nothing to
    replace: the tenth has rewritten every 79 19 before. *)
Lemma fourteenth_patch_never_fires (s : bytes) :
  Replace (Replace s [Byte.x79; Byte.x19] [Byte.x79; Byte.x1b])
          [Byte.x05; Byte.x79; Byte.x19] [Byte.x05; Byte.x79; Byte.x1b]
  = Replace s [Byte.x79; Byte.x19] [Byte.x79; Byte.x1b].
Proof.
  set (p10 := mkRule [Byte.x79] Byte.x19 Byte.x1b []).
  set (p14 := mkRule [Byte.x05; Byte.x79] Byte.x19 Byte.x1b []).
  change (apply_rule p14 (apply_rule p10 s) = apply_rule p10 s).
  apply (nth_ext _ _ Byte.x00 Byte.x00).
  - now rewrite !apply_rule_length.
  - intros j Hj. rewrite !apply_rule_length in Hj.
    rewrite (apply_rule_nth p14) by (rewrite apply_rule_length; exact Hj).
    rewrite fires_after by reflexivity.
    destruct (fires p14 s j) eqn:F14; destruct (fires p10 s j) eqn:F10;
      cbn [andb negb]; try reflexivity.
    exfalso.
    apply fires_byte in F14 as (_ & _ & Hk & Hocc).
    apply occ_iff in Hocc as [Hl Hn]; [|discriminate].
    cbn [r_pre p14 List.length rule_old app] in Hk, Hl, Hn.
    assert (Hocc10 : is_prefix (rule_old p10) (skipn (j - 1) s) = true).
    { apply occ_iff; [discriminate|].
      cbn [rule_old p10 r_pre r_x r_post app List.length]. split; [lia|].
      intros t Ht.
      replace (j - 1 + t)%nat with (j - 2 + Datatypes.S t)%nat by lia.
      rewrite (Hn (Datatypes.S t)) by lia. reflexivity. }
    unfold fires, fired in F10.
    rewrite starts_borderless, occs_nth in F10
      by (try discriminate; reflexivity).
    cbn [r_pre p10 List.length] in F10. rewrite Hocc10 in F10.
    destruct (Nat.leb_spec 1 j); [discriminate|lia].
Qed.

(** ** The signature setter, the base image and the rejected records *)

(** A signature of 256 bytes replaces the signature field as a whole and
    sets the flag; a signature of any other length clears the flag, even
    when a signature was present, leaves the bytes of the field as they
    are and gives the error. *)
Theorem AddSignature_replaces (f : Firmware) (sig : bytes) :
  len (Signature f) = 256 ->
  (len sig = 256 ->
     AddSignature f sig
     = Returned (set_HasSignature true (set_Signature sig f), None))
  /\ (len sig <> 256 ->
      AddSignature f sig
      = Returned (set_HasSignature false f,
                  Some "wrong size of firmware signature"%string)).
Proof.
  intros Hf. unfold AddSignature, copy_window. split; intros Hs.
  - rewrite Hs. change (negb (256 =? 256)) with false. cbv iota.
    rewrite slice_ok by (pose proof (len_nonneg (Signature f)); lia).
    ret. ret. do 3 f_equal. unfold blit.
    change (Z.to_nat 0) with O. rewrite Z.sub_0_r.
    cbn [firstn skipn app Nat.add].
    assert (Ln : List.length (Signature f) = 256%nat) by (unfold len in Hf; lia).
    assert (Ls : List.length sig = 256%nat) by (unfold len in Hs; lia).
    rewrite length_firstn, Hf, Ln. change (Z.to_nat 256) with 256%nat.
    rewrite Nat.min_id.
    rewrite firstn_all2 by lia.
    rewrite skipn_all2 by lia. rewrite app_nil_r. reflexivity.
  - destruct (Z.eqb_spec (len sig) 256); [contradiction|]. reflexivity.
Qed.

Lemma AddSignature_replaces_witness :
  AddSignature new_Firmware (repeat Byte.xaa 256)
  = Returned (set_HasSignature true
                (set_Signature (repeat Byte.xaa 256) new_Firmware), None)
  /\ AddSignature (set_HasSignature true new_Firmware) [Byte.xaa]
     = Returned (set_HasSignature false (set_HasSignature true new_Firmware),
                 Some "wrong size of firmware signature"%string).
Proof.
  split.
  - apply (AddSignature_replaces new_Firmware (repeat Byte.xaa 256));
      reflexivity.
  - apply (AddSignature_replaces (set_HasSignature true new_Firmware)
             [Byte.xaa]); [reflexivity|].
    vm_compute. congruence.
Defined.

Lemma BaseImage_returns (f : Firmware) :
  window_ok f ->
  BaseImage f = Returned (f, (image_window f, None))
  /\ len (image_window f) = Size f.
Proof.
  intros (Hst & Hsz & Hw & Hl). unfold BaseImage, image_window. cbv zeta.
  rewrite u16_small by lia. rewrite slice_ok by lia. ret.
  replace (StartOffset f + Size f - StartOffset f) with (Size f) by lia.
  set (win := firstn (Z.to_nat (Size f))
                     (skipn (Z.to_nat (StartOffset f)) (raw f))).
  assert (Lw : List.length win = Z.to_nat (Size f)).
  { unfold win. rewrite length_firstn, length_skipn.
    unfold len in Hl. lia. }
  split; [|unfold len; lia].
  do 3 f_equal. unfold blit, make.
  change (Z.to_nat 0) with O. cbn [firstn app Nat.add].
  rewrite repeat_length.
  rewrite firstn_all2 by lia.
  rewrite skipn_all2 by (rewrite repeat_length; lia).
  rewrite app_nil_r. reflexivity.
Qed.

(** The base image is the window [RawData[StartOffset : StartOffset+Size]]
    of the buffer, [Size] bytes long, with no error and the entity left as
    it was; when the 16-bit sum [StartOffset+Size] wraps, the upper bound
    of the window lies below its lower bound and the call panics. *)
Theorem BaseImage_window (f : Firmware) :
  0 <= StartOffset f < 65536 -> 0 <= Size f < 65536 ->
  (window_ok f ->
     BaseImage f
     = Returned (f, (firstn (Z.to_nat (Size f))
                            (skipn (Z.to_nat (StartOffset f)) (raw f)), None))
     /\ len (firstn (Z.to_nat (Size f))
                    (skipn (Z.to_nat (StartOffset f)) (raw f))) = Size f)
  /\ (65536 <= StartOffset f + Size f -> BaseImage f = Panicked).
Proof.
  intros Hst Hsz. split.
  - intros Hw. exact (BaseImage_returns f Hw).
  - intros Hwrap. unfold BaseImage. cbv zeta.
    rewrite slice_panics; [reflexivity|].
    right; left. unfold u16.
    replace (StartOffset f + Size f)
      with (StartOffset f + Size f - 65536 + 1 * 65536) by lia.
    rewrite Z.mod_add by lia. rewrite Z.mod_small by lia. lia.
Qed.

Lemma BaseImage_window_witness :
  BaseImage (pushed_data new_Firmware low_record)
  = Returned (pushed_data new_Firmware low_record,
              ([Byte.x11; Byte.x22; Byte.x33; Byte.x44], None))
  /\ BaseImage (mkFirmware (Some [Byte.x11]) 0xFFFF 1 0 false 0 0
                  (repeat Byte.x00 256) false FIRMWARE_TARGET_TYPE_UNKNOWN)
     = Panicked.
Proof.
  split.
  - apply (BaseImage_window (pushed_data new_Firmware low_record));
      [vm_compute; split; congruence | vm_compute; split; congruence|].
    unfold window_ok. repeat split; vm_compute; congruence.
  - apply (BaseImage_window
             (mkFirmware (Some [Byte.x11]) 0xFFFF 1 0 false 0 0
                (repeat Byte.x00 256) false FIRMWARE_TARGET_TYPE_UNKNOWN));
      vm_compute; try split; congruence.
Defined.



(** ** What the detectors accept *)

Lemma stored_crc_be_value (s : bytes) (size : Z) :
  stored_crc_be s size
  = 256 * b2z (nth (Z.to_nat (size - 2)) s Byte.x00)
    + b2z (nth (Z.to_nat (size - 1)) s Byte.x00).
Proof.
  unfold stored_crc_be.
  pose proof (b2z_range (nth (Z.to_nat (size - 2)) s Byte.x00)) as Hh.
  pose proof (b2z_range (nth (Z.to_nat (size - 1)) s Byte.x00)) as Hl.
  rewrite u16_small by (rewrite Z.shiftl_mul_pow2 by lia; lia).
  apply lor_shiftl_8, Hl.
Qed.

(** An entity the Nordic detector accepts: the image starts at 0 and has
    one of the two candidate sizes, which the buffer holds; the last
    offset closes it; the checksum field is the one stored, high byte
    first, in the last two bytes of the image and equals the checksum of
    the bytes before them; and the larger candidate is taken only when
    the smaller one did not validate. *)
Theorem nordic_accepted_layout (f f' : Firmware) :
  ParseFirmwareNordic f = Returned (f', None) ->
  RawData f' = RawData f
  /\ StartOffset f' = 0
  /\ (Size f' = 0x6400 \/ Size f' = 0x6800)
  /\ LastOffset f' = Size f' - 1
  /\ Size f' <= len (raw f)
  /\ CRC f'
     = 256 * b2z (nth (Z.to_nat (Size f' - 2)) (raw f) Byte.x00)
       + b2z (nth (Z.to_nat (Size f' - 1)) (raw f) Byte.x00)
  /\ Checksum (firstn (Z.to_nat (Size f' - 2)) (raw f)) = CRC f'
  /\ (Size f' = 0x6800 ->
      Checksum (firstn (Z.to_nat (0x6400 - 2)) (raw f))
      <> 256 * b2z (nth (Z.to_nat (0x6400 - 2)) (raw f) Byte.x00)
         + b2z (nth (Z.to_nat (0x6400 - 1)) (raw f) Byte.x00)).
Proof.
  unfold ParseFirmwareNordic. intros H.
  bind_inv H. cbv zeta in H.
  change (raw (set_HasBL a f)) with (raw f) in H.
  destruct (Z.ltb_spec (len (raw f)) 0x6400) as [H1|H1]; [discriminate|].
  rewrite nordic_candidate_eq in H
    by (change (raw (set_HasBL a f)) with (raw f); lia).
  rewrite bind_Returned in H. cbv beta iota in H.
  change (raw (set_HasBL a f)) with (raw f) in H.
  destruct (nordic_crc_ok (raw f) 0x6400) eqn:C1.
  - injection H as <-. fields.
    rewrite <- stored_crc_be_value.
    unfold nordic_crc_ok in C1. apply Z.eqb_eq in C1.
    repeat split; try (now left); try lia; try exact C1.
  - change (raw (set_CRC ?c (set_Size ?s (set_LastOffset ?l
              (set_StartOffset 0 (set_HasBL ?b f)))))) with (raw f) in H.
    destruct (Z.ltb_spec (len (raw f)) 0x6800) as [H2|H2]; [discriminate|].
    rewrite nordic_candidate_eq in H
      by (change (raw (set_CRC ?c (set_Size ?s (set_LastOffset ?l
                (set_StartOffset 0 (set_HasBL ?b f)))))) with (raw f); lia).
    rewrite bind_Returned in H. cbv beta iota in H.
    change (raw (set_CRC ?c (set_Size ?s (set_LastOffset ?l
              (set_StartOffset 0 (set_HasBL ?b f)))))) with (raw f) in H.
    destruct (nordic_crc_ok (raw f) 0x6800) eqn:C2; [|discriminate].
    injection H as <-. fields.
    rewrite <- !stored_crc_be_value.
    unfold nordic_crc_ok in C1, C2.
    apply Z.eqb_eq in C2. apply Z.eqb_neq in C1.
    repeat split; try (now right); try lia; try exact C2.
Qed.

Lemma nordic_accepted_layout_witness :
  exists f',
    ParseFirmwareNordic (entity_of nordic_with_marker) = Returned (f', None)
    /\ StartOffset f' = 0
    /\ (Size f' = 0x6400 \/ Size f' = 0x6800)
    /\ LastOffset f' = Size f' - 1.
Proof.
  destruct (ParseFirmwareNordic_eq (entity_of nordic_with_marker))
    as (f' & E & _).
  - left. vm_compute. congruence.
  - assert (V : nordic_valid (raw (entity_of nordic_with_marker)) = true)
      by (vm_compute; reflexivity).
    rewrite V in E. exists f'. split; [exact E|].
    destruct (nordic_accepted_layout _ _ E) as (_ & H1 & H2 & H3 & _).
    repeat split; assumption.
Defined.

(** ** The position [strings.Index] finds *)

Lemma Index_from_spec (sep : bytes) :
  forall (s : bytes) (i : Z),
    (Index_from sep i s = -1
     /\ forall j, (j <= List.length s)%nat -> is_prefix sep (skipn j s) = false)
    \/ (exists p : nat,
          Index_from sep i s = i + Z.of_nat p
          /\ (p <= List.length s)%nat
          /\ is_prefix sep (skipn p s) = true
          /\ forall j, (j < p)%nat -> is_prefix sep (skipn j s) = false).
Proof.
  induction s as [|b s IH]; intros i; cbn [Index_from].
  - destruct (is_prefix sep []) eqn:E.
    + right. exists O. rewrite Z.add_0_r.
      repeat split; auto; intros j Hj; lia.
    + left. split; [reflexivity|]. intros j Hj.
      destruct j; [exact E|cbn in Hj; lia].
  - destruct (is_prefix sep (b :: s)) eqn:E.
    + right. exists O. rewrite Z.add_0_r.
      repeat split; auto; try (cbn; lia); intros j Hj; lia.
    + destruct (IH (i + 1)) as [(E1 & Hn) | (p & E1 & Hp & Ht & Hn)].
      * left. split; [exact E1|]. intros [|j] Hj; [exact E|].
        cbn [skipn]. apply Hn. cbn in Hj. lia.
      * right. exists (S p). rewrite E1.
        split; [lia|]. split; [cbn; lia|]. split; [exact Ht|].
        intros [|j] Hj; [exact E|]. cbn [skipn]. apply Hn. lia.
Qed.

(** The position found is the first one at which the separator occurs. *)
Lemma Index_first (s sep : bytes) (p : nat) :
  is_prefix sep (skipn p s) = true ->
  (forall j, (j < p)%nat -> is_prefix sep (skipn j s) = false) ->
  Index s sep = Z.of_nat p.
Proof.
  intros Ht Hn. unfold Index.
  assert (Hp : (p <= List.length s)%nat).
  { destruct (Nat.le_gt_cases p (List.length s)) as [|Hgt]; [assumption|].
    rewrite skipn_all2 in Ht by lia.
    rewrite <- (skipn_all s) in Ht. rewrite (Hn _ Hgt) in Ht. discriminate. }
  destruct (Index_from_spec sep s 0) as [(_ & Hall) | (q & E & Hq & Hqt & Hqn)].
  - rewrite (Hall p Hp) in Ht. discriminate.
  - rewrite E, Z.add_0_l. f_equal.
    destruct (Nat.lt_trichotomy p q) as [L | [L | L]]; [|now symmetry|].
    + rewrite (Hqn p L) in Ht. discriminate.
    + rewrite (Hn q L) in Hqt. discriminate.
Qed.

Lemma Index_occurs (s sep : bytes) :
  0 <= Index s sep ->
  is_prefix sep (skipn (Z.to_nat (Index s sep)) s) = true
  /\ forall j, (j < Z.to_nat (Index s sep))%nat ->
               is_prefix sep (skipn j s) = false.
Proof.
  unfold Index. intros H.
  destruct (Index_from_spec sep s 0) as [(E & _) | (q & E & _ & Hqt & Hqn)].
  - lia.
  - rewrite E, Z.add_0_l, Nat2Z.id. split; assumption.
Qed.

Lemma Index_missing (s sep : bytes) :
  (forall j, (j <= List.length s)%nat -> is_prefix sep (skipn j s) = false) ->
  Index s sep = -1.
Proof.
  intros Hall. unfold Index.
  destruct (Index_from_spec sep s 0) as [(E & _) | (q & _ & Hq & Hqt & _)].
  - exact E.
  - rewrite (Hall q Hq) in Hqt. discriminate.
Qed.

Lemma Index_range (s sep : bytes) : Index s sep = -1 \/ 0 <= Index s sep.
Proof.
  unfold Index.
  destruct (Index_from_spec sep s 0) as [(E & _) | (q & E & _)]; [now left|].
  right. lia.
Qed.

Lemma is_prefix_app (p s t : bytes) :
  is_prefix p s = true -> is_prefix p (s ++ t) = true.
Proof.
  revert s. induction p as [|a p IH]; intros [|b s] H; cbn in *;
    try reflexivity; try discriminate.
  apply andb_true_iff in H as [H1 H2]. rewrite H1. cbn. now apply IH.
Qed.

Lemma is_prefix_exact (p s : bytes) :
  is_prefix p s = true -> List.length s = List.length p -> s = p.
Proof.
  revert s. induction p as [|a p IH]; intros [|b s] H L; cbn in *;
    try reflexivity; try discriminate.
  apply andb_true_iff in H as [H1 H2]. apply byte_eqb_eq in H1. subst b.
  f_equal. apply IH; [assumption|lia].
Qed.

Lemma is_prefix_firstn (p s : bytes) (n : nat) :
  (List.length p <= n)%nat ->
  is_prefix p (firstn n s) = is_prefix p s.
Proof.
  revert s n. induction p as [|a p IH]; intros s n Hn.
  - destruct (firstn n s), s; reflexivity.
  - destruct n as [|n]; [cbn in Hn; lia|].
    destruct s as [|b s]; [reflexivity|].
    cbn [firstn is_prefix]. rewrite IH by (cbn in Hn; lia). reflexivity.
Qed.

Lemma is_prefix_self (p t : bytes) : is_prefix p (p ++ t) = true.
Proof.
  induction p as [|a p IH]; [reflexivity|].
  cbn. now rewrite byte_eqb_refl.
Qed.
Lemma u16_wrap_neg (z : Z) : -65536 <= z < 0 -> u16 z = z + 65536.
Proof.
  intros H. unfold u16.
  replace z with (z + 65536 + (-1) * 65536) at 1 by lia.
  rewrite Z.mod_add by lia. apply Z.mod_small. lia.
Qed.

Lemma crc_le_value (hi lo : byte) :
  Z.lor (u16 (Z.shiftl (b2z hi) 8)) (b2z lo) = 256 * b2z hi + b2z lo.
Proof.
  pose proof (b2z_range hi). pose proof (b2z_range lo).
  rewrite u16_small by (rewrite Z.shiftl_mul_pow2 by lia; lia).
  now apply lor_shiftl_8.
Qed.

Ltac ti_fields start pos :=
  rewrite !crc_le_value;
  replace (start + (pos + 4) - 6 + 1) with (start + pos - 1) by lia;
  replace (start + (pos + 4) - 6 - start) with (pos - 2) by lia;
  replace (start + (pos + 4) - 6) with (start + pos - 2) by lia;
  replace (pos + 4 + start - 1) with (start + pos + 3) by lia;
  match goal with
  | |- context [Checksum ?b =? ?c] => destruct (Checksum b =? c)
  end; reflexivity.

Ltac u16_simpl :=
  repeat match goal with
         | |- context [u16 ?z] => rewrite (u16_small z) by lia
         end.

Lemma ParseFirmwareTI_eq (f : Firmware) :
  0x400 <= len (raw f) < 65536 ->
  ParseFirmwareTI f
  = let pos := ti_marker (raw f) in
    if pos <? 0
    then Returned (ti_undetected f, Some
           "seems to be no valid Logitech firmware for TI, magic bytes missing"%string)
    else if pos <? 2 then Panicked
    else Returned
           (ti_detected f pos,
            if Checksum (firstn (Z.to_nat (pos - 2))
                           (skipn (Z.to_nat (ti_start (raw f))) (raw f)))
               =? stored_crc_le (raw f) pos
            then None else Some "Firmware has wrong CRC"%string).
Proof.
  intros Hl.
  destruct f as [[s|] sz st la bl crc tp sg hs tt];
    cbn [raw RawData] in Hl; [|cbn in Hl; lia].
  unfold ParseFirmwareTI, ti_undetected, ti_detected.
  cbn [raw RawData].
  rewrite slice_ok by lia. ret.
  set (ab := firstn _ (skipn _ s)).
  assert (Lab : len ab = 0x400).
  { unfold ab, len. rewrite length_firstn, length_skipn. unfold len in Hl. lia. }
  assert (Nab : forall i, (i < 1024)%nat -> nth i ab Byte.x00 = nth i s Byte.x00).
  { intros i Hi. unfold ab. rewrite nth_firstn.
    change (Z.to_nat (0x400 - 0)) with 1024%nat.
    destruct (Nat.ltb_spec i 1024); [|lia]. reflexivity. }
  rewrite index_ok by lia. ret. rewrite Nab by (vm_compute; lia).
  assert (Hv : (if Byte.eqb (nth (Z.to_nat 0x3f8) s Byte.x00) Byte.x6d
                then v1 <- index ab 0x3f9 ;; Returned (Byte.eqb v1 Byte.x04)
                else Returned false) = Returned (ti_vid s)).
  { unfold ti_vid. destruct (Byte.eqb _ Byte.x6d); [|reflexivity].
    rewrite index_ok by lia. ret. rewrite Nab by (vm_compute; lia).
    reflexivity. }
  rewrite Hv. ret. clear Hv Nab Lab ab.
  unfold ti_marker, stored_crc_le, ti_start.
  destruct (ti_vid s) eqn:V; cbv zeta iota;
    cbn [raw RawData Size StartOffset TailPos CRC set_Size set_StartOffset
         set_HasBL set_LastOffset set_TailPos set_CRC LastOffset HasBL
         Signature HasSignature TargetType].
  - rewrite slice_ok by lia. ret.
    rewrite firstn_all2
      by (rewrite length_skipn; unfold len in *; lia).
    assert (Hp : Index (skipn (Z.to_nat 1024) s) end_marker = -1
                 \/ (0 <= Index (skipn (Z.to_nat 1024) s) end_marker
                     /\ Index (skipn (Z.to_nat 1024) s) end_marker + 4
                        <= len s - 1024)).
    { destruct (Index_range (skipn (Z.to_nat 1024) s) end_marker) as [E|E];
        [now left|right]. split; [exact E|].
      pose proof (Index_found (skipn (Z.to_nat 1024) s) end_marker
                    ltac:(discriminate) E) as F.
      change (len end_marker) with 4 in F.
      assert (len (skipn (Z.to_nat 1024) s) = len s - 1024)
        by (unfold len; rewrite length_skipn; unfold len in Hl; lia).
      lia. }
    set (pos := Index (skipn (Z.to_nat 1024) s) end_marker) in *.
    clearbody pos.
    destruct (Z.ltb_spec pos 0) as [N|N]; [reflexivity|].
    destruct Hp as [Hp|[_ Hp]]; [lia|].
    destruct (Z.ltb_spec pos 2) as [P|P].
    + u16_simpl. rewrite !index_ok by lia. ret. ret.
      rewrite slice_panics by lia. reflexivity.
    + u16_simpl. rewrite !index_ok by lia. ret. ret.
      rewrite slice_ok by lia. ret.
      ti_fields 1024 pos.
  - rewrite slice_ok by lia. ret.
    rewrite firstn_all2
      by (rewrite length_skipn; unfold len in *; lia).
    assert (Hp : Index (skipn (Z.to_nat 0) s) end_marker = -1
                 \/ (0 <= Index (skipn (Z.to_nat 0) s) end_marker
                     /\ Index (skipn (Z.to_nat 0) s) end_marker + 4
                        <= len s - 0)).
    { destruct (Index_range (skipn (Z.to_nat 0) s) end_marker) as [E|E];
        [now left|right]. split; [exact E|].
      pose proof (Index_found (skipn (Z.to_nat 0) s) end_marker
                    ltac:(discriminate) E) as F.
      change (len end_marker) with 4 in F.
      assert (len (skipn (Z.to_nat 0) s) = len s - 0)
        by (unfold len; rewrite length_skipn; unfold len in Hl; lia).
      lia. }
    set (pos := Index (skipn (Z.to_nat 0) s) end_marker) in *.
    clearbody pos.
    destruct (Z.ltb_spec pos 0) as [N|N]; [reflexivity|].
    destruct Hp as [Hp|[_ Hp]]; [lia|].
    destruct (Z.ltb_spec pos 2) as [P|P].
    + rewrite (u16_small pos), (u16_small (pos + 4)) by lia.
      rewrite (u16_wrap_neg (0 + (pos + 4) - 6)) by lia.
      assert (Hc : pos = 0 \/ pos = 1) by lia.
      destruct Hc as [-> | ->].
      * change (u16 (0 + (0 + 4) - 6 + 65536 + 1)) with 65535.
        rewrite index_panics by lia. reflexivity.
      * change (u16 (0 + (1 + 4) - 6 + 65536 + 1)) with 0.
        rewrite index_ok by lia. ret.
        rewrite index_panics by lia. reflexivity.
    + u16_simpl. rewrite !index_ok by lia. ret. ret.
      rewrite slice_ok by lia. ret.
      ti_fields 0 pos.
Qed.

Lemma ParseFirmwareTI_needs_1k (f : Firmware) (r : Firmware * option error) :
  ParseFirmwareTI f = Returned r -> 0x400 <= len (raw f).
Proof.
  unfold ParseFirmwareTI. intros H. bind_inv H.
  apply slice_length in E. lia.
Qed.

Lemma ti_marker_fits (s : bytes) :
  0x400 <= len s -> 0 <= ti_marker s -> ti_start s + ti_marker s + 4 <= len s.
Proof.
  intros Hl Hp. unfold ti_marker in *.
  pose proof (Index_found _ end_marker ltac:(discriminate) Hp) as F.
  change (len end_marker) with 4 in F.
  assert (0 <= ti_start s <= 0x400)
    by (unfold ti_start; destruct (ti_vid s); lia).
  assert (len (skipn (Z.to_nat (ti_start s)) s) = len s - ti_start s)
    by (unfold len in *; rewrite length_skipn; lia).
  lia.
Qed.

(** The TI detector accepts a buffer of at least 0x400 and fewer than
    0x10000 bytes whose first end marker behind the start offset lies at
    a position [pos >= 2] and is preceded by the checksum, low byte
    first, of the [pos - 2] bytes before it: the size is [pos + 4], the
    last offset and the checksum position follow from it, and the
    bootloader flag and the start offset from the vendor bytes. *)
Theorem ti_detector_accepts (f : Firmware) (pos : Z) :
  0x400 <= len (raw f) < 65536 ->
  ti_marker (raw f) = pos ->
  2 <= pos ->
  Checksum (firstn (Z.to_nat (pos - 2))
              (skipn (Z.to_nat (ti_start (raw f))) (raw f)))
  = stored_crc_le (raw f) pos ->
  ParseFirmwareTI f = Returned (ti_detected f pos, None).
Proof.
  intros Hl Hm Hp Hc. rewrite ParseFirmwareTI_eq by exact Hl.
  cbv zeta. rewrite Hm.
  destruct (Z.ltb_spec pos 0); [lia|].
  destruct (Z.ltb_spec pos 2); [lia|].
  apply Z.eqb_eq in Hc. rewrite Hc. reflexivity.
Qed.

Lemma ti_detector_accepts_witness :
  ParseFirmwareTI (entity_of ti_image)
  = Returned (ti_detected (entity_of ti_image) 0x402, None)
  /\ layout (ti_detected (entity_of ti_image) 0x402)
     = (0, 0x406, 0x405, 0xB76F, 0x400, FIRMWARE_TARGET_TYPE_UNKNOWN).
Proof.
  split.
  - apply (ti_detector_accepts (entity_of ti_image) 0x402).
    + vm_compute. split; congruence.
    + vm_compute. reflexivity.
    + vm_compute. congruence.
    + vm_compute. reflexivity.
  - vm_compute. reflexivity.
Defined.

(** The ways the TI detector fails on a buffer of at least 0x400 and
    fewer than 0x10000 bytes: without an end marker behind the start
    offset it gives the error with the size, the last offset, the
    checksum and its position untouched; with a marker at [pos >= 2] and
    another checksum in front of it, it gives the checksum error with the
    layout fields derived from the marker; with a marker in the first two
    bytes of the image it panics. *)
Theorem ti_detector_errors (f : Firmware) :
  0x400 <= len (raw f) < 65536 ->
  (ti_marker (raw f) = -1 ->
     ParseFirmwareTI f
     = Returned (ti_undetected f, Some
         "seems to be no valid Logitech firmware for TI, magic bytes missing"%string))
  /\ (forall pos,
        ti_marker (raw f) = pos -> 2 <= pos ->
        Checksum (firstn (Z.to_nat (pos - 2))
                    (skipn (Z.to_nat (ti_start (raw f))) (raw f)))
        <> stored_crc_le (raw f) pos ->
        ParseFirmwareTI f
        = Returned (ti_detected f pos, Some "Firmware has wrong CRC"%string))
  /\ (ti_marker (raw f) = 0 \/ ti_marker (raw f) = 1 ->
      ParseFirmwareTI f = Panicked).
Proof.
  intros Hl. rewrite ParseFirmwareTI_eq by exact Hl. cbv zeta.
  split; [|split].
  - intros ->. reflexivity.
  - intros pos -> Hp Hc.
    destruct (Z.ltb_spec pos 0); [lia|].
    destruct (Z.ltb_spec pos 2); [lia|].
    apply Z.eqb_neq in Hc. rewrite Hc. reflexivity.
  - intros [-> | ->]; reflexivity.
Qed.

Lemma ti_detector_errors_witness :
  ParseFirmwareTI (entity_of zeros_7401)
  = Returned (ti_undetected (entity_of zeros_7401), Some
      "seems to be no valid Logitech firmware for TI, magic bytes missing"%string)
  /\ ParseFirmwareTI (entity_of bad_crc_blob)
     = Returned (ti_detected (entity_of bad_crc_blob) 0x10,
                 Some "Firmware has wrong CRC"%string)
  /\ ParseFirmwareTI (entity_of marker_first_blob) = Panicked.
Proof.
  split; [|split].
  - apply (ti_detector_errors (entity_of zeros_7401)).
    + vm_compute. split; congruence.
    + vm_compute. reflexivity.
  - apply (ti_detector_errors (entity_of bad_crc_blob)).
    + vm_compute. split; congruence.
    + vm_compute. reflexivity.
    + vm_compute. congruence.
    + vm_compute. congruence.
  - apply (ti_detector_errors (entity_of marker_first_blob)).
    + vm_compute. split; congruence.
    + left. vm_compute. reflexivity.
Defined.

(** The image cut at the first marker of a buffer is well formed when the
    checksum in front of the marker is the one of the bytes before it. *)
Lemma ti_image_of_marker (rest : bytes) (pos : Z) :
  Index rest end_marker = pos -> 2 <= pos ->
  Checksum (firstn (Z.to_nat (pos - 2)) rest)
  = 256 * b2z (nth (Z.to_nat (pos - 1)) rest Byte.x00)
    + b2z (nth (Z.to_nat (pos - 2)) rest Byte.x00) ->
  len (firstn (Z.to_nat (pos + 4)) rest) = pos + 4
  /\ ti_image_ok (firstn (Z.to_nat (pos + 4)) rest).
Proof.
  intros Hi Hp Hc.
  assert (H0 : 0 <= Index rest end_marker) by lia.
  pose proof (Index_found rest end_marker ltac:(discriminate) H0) as Hf.
  destruct (Index_occurs rest end_marker H0) as (Ht & Hn).
  rewrite Hi in *. change (len end_marker) with 4 in Hf.
  set (img := firstn (Z.to_nat (pos + 4)) rest).
  assert (Li : len img = pos + 4).
  { unfold img, len. rewrite length_firstn. unfold len in Hf. lia. }
  split; [exact Li|].
  assert (Hsk : forall j, (j <= Z.to_nat pos)%nat ->
            is_prefix end_marker (skipn j img)
            = is_prefix end_marker (skipn j rest)).
  { intros j Hj. unfold img. rewrite skipn_firstn_comm.
    apply is_prefix_firstn. cbn [List.length end_marker]. lia. }
  unfold ti_image_ok. rewrite Li.
  split; [lia|]. split; [|split].
  - replace (pos + 4 - 4) with (Z.of_nat (Z.to_nat pos)) by lia.
    apply Index_first.
    + rewrite Hsk by lia. exact Ht.
    + intros j Hj. rewrite Hsk by lia. now apply Hn.
  - replace (pos + 4 - 4) with pos by lia.
    apply is_prefix_exact.
    + rewrite Hsk by lia. exact Ht.
    + unfold img. rewrite length_skipn, length_firstn.
      unfold len in Hf. cbn [List.length end_marker]. lia.
  - unfold img.
    replace (pos + 4 - 6) with (pos - 2) by lia.
    replace (pos + 4 - 5) with (pos - 1) by lia.
    rewrite firstn_firstn.
    replace (Nat.min (Z.to_nat (pos - 2)) (Z.to_nat (pos + 4)))
      with (Z.to_nat (pos - 2)) by lia.
    rewrite !nth_firstn.
    destruct (Nat.ltb_spec (Z.to_nat (pos - 2)) (Z.to_nat (pos + 4))); [|lia].
    destruct (Nat.ltb_spec (Z.to_nat (pos - 1)) (Z.to_nat (pos + 4))); [|lia].
    rewrite Hc. lia.
Qed.

(** An entity the TI detector accepted, for a buffer of fewer than
    0x10000 bytes: the start offset and the bootloader flag follow the
    vendor bytes, the last offset and the checksum position close the
    image, and the base image that [BaseImage] then returns is a
    well-formed TI image of [Size] bytes whose checksum is the one
    recorded in the entity. *)
Theorem ti_accepted_image (f f' : Firmware) :
  ParseFirmwareTI f = Returned (f', None) ->
  len (raw f) < 65536 ->
  exists img,
    BaseImage f' = Returned (f', (img, None))
    /\ RawData f' = RawData f
    /\ img = firstn (Z.to_nat (Size f'))
                    (skipn (Z.to_nat (StartOffset f')) (raw f))
    /\ len img = Size f'
    /\ ti_image_ok img
    /\ CRC f' = Checksum (firstn (Z.to_nat (len img - 6)) img)
    /\ HasBL f' = ti_vid (raw f)
    /\ StartOffset f' = (if HasBL f' then 0x400 else 0)
    /\ StartOffset f' + Size f' <= len (raw f)
    /\ LastOffset f' = StartOffset f' + Size f' - 1
    /\ TailPos f' = StartOffset f' + Size f' - 6.
Proof.
  intros H Hl.
  pose proof (ParseFirmwareTI_needs_1k _ _ H) as H1k.
  rewrite ParseFirmwareTI_eq in H by lia. cbv zeta in H.
  destruct (Z.ltb_spec (ti_marker (raw f)) 0) as [N|N]; [discriminate|].
  destruct (Z.ltb_spec (ti_marker (raw f)) 2) as [P|P]; [discriminate|].
  destruct (Checksum _ =? _) eqn:C; [|discriminate].
  apply Z.eqb_eq in C. injection H as <-.
  pose proof (ti_marker_fits (raw f) H1k N) as Hfit.
  remember (ti_marker (raw f)) as pos eqn:Epos.
  assert (Hs : 0 <= ti_start (raw f) <= 0x400)
    by (unfold ti_start; destruct (ti_vid (raw f)); lia).
  assert (Hw : window_ok (ti_detected f pos)).
  { unfold window_ok. change (raw (ti_detected f pos)) with (raw f).
    cbn [StartOffset Size ti_detected]. lia. }
  destruct (BaseImage_returns _ Hw) as (Eb & Lb).
  exists (image_window (ti_detected f pos)).
  split; [exact Eb|]. split; [reflexivity|]. split; [reflexivity|].
  split; [exact Lb|].
  destruct (ti_image_of_marker (skipn (Z.to_nat (ti_start (raw f))) (raw f)) pos)
    as (Li & Hok).
  { unfold ti_marker in Epos. symmetry. exact Epos. }
  { exact P. }
  { rewrite C. unfold stored_crc_le. rewrite !nth_skipn.
    replace (Z.to_nat (ti_start (raw f)) + Z.to_nat (pos - 1))%nat
      with (Z.to_nat (ti_start (raw f) + pos - 1)) by lia.
    replace (Z.to_nat (ti_start (raw f)) + Z.to_nat (pos - 2))%nat
      with (Z.to_nat (ti_start (raw f) + pos - 2)) by lia.
    reflexivity. }
  assert (Ew : image_window (ti_detected f pos)
               = firstn (Z.to_nat (pos + 4))
                        (skipn (Z.to_nat (ti_start (raw f))) (raw f)))
    by reflexivity.
  rewrite Ew. split; [exact Hok|].
  cbn [CRC HasBL StartOffset Size LastOffset TailPos ti_detected].
  split.
  { rewrite Li. replace (pos + 4 - 6) with (pos - 2) by lia.
    rewrite firstn_firstn.
    replace (Nat.min (Z.to_nat (pos - 2)) (Z.to_nat (pos + 4)))
      with (Z.to_nat (pos - 2)) by lia.
    symmetry. exact C. }
  split; [reflexivity|].
  split; [unfold ti_start; destruct (ti_vid (raw f)); reflexivity|].
  lia.
Qed.

Lemma ti_accepted_image_witness :
  exists img,
    BaseImage (ti_detected (entity_of ti_image) 0x402)
    = Returned (ti_detected (entity_of ti_image) 0x402, (img, None))
    /\ len img = 0x406
    /\ ti_image_ok img.
Proof.
  destruct (ti_accepted_image (entity_of ti_image)
              (ti_detected (entity_of ti_image) 0x402))
    as (img & E & _ & _ & L & Hok & _).
  - vm_compute. reflexivity.
  - vm_compute. reflexivity.
  - exists img. split; [exact E|]. split; [exact L|exact Hok].
Defined.

(** ** The classification *)



(** ** The contents of the loaded buffer *)

(** After any sequence of well-formed data records, in any order and with
    any overlap, the buffer reaches the largest end of a record, and each
    of its bytes is the one the last record covering the position wrote;
    a position no record covers keeps its old byte, or holds 0xFF when
    the buffer did not reach it before. *)
Theorem loaded_buffer_contents (hs : list bytes) :
  Forall data_record hs ->
  forall f : Firmware,
  exists f',
    push_all f hs = Returned f'
    /\ len (raw f') = Z.max (len (raw f)) (max_end hs)
    /\ forall i : nat,
         Z.of_nat i < len (raw f') ->
         nth i (raw f') Byte.x00
         = match written_at hs (Z.of_nat i) with
           | Some b => b
           | None => if Z.of_nat i <? len (raw f) then nth i (raw f) Byte.x00
                     else Byte.xff
           end.
Proof.
  induction 1 as [|h hs Hh _ IH]; intros f.
  - exists f. cbn [push_all max_end fold_right written_at].
    pose proof (len_nonneg (raw f)).
    split; [reflexivity|]. split; [lia|].
    intros i Hi.
    destruct (Z.ltb_spec (Z.of_nat i) (len (raw f))); [reflexivity|lia].
  - cbn [push_all]. rewrite (pushRawHexLine_data f h Hh). ret. cbn [fst].
    destruct (IH (pushed_data f h)) as (f' & E & L & N).
    rewrite raw_pushed_data in L, N.
    destruct Hh as [Hok _].
    pose proof (pushed_buffer_length (raw f) h Hok) as Lp.
    exists f'. split; [exact E|]. split.
    + cbn [max_end fold_right]. fold (max_end hs). lia.
    + intros i Hi. rewrite (N i Hi). cbn [written_at].
      destruct (written_at hs (Z.of_nat i)) as [b|]; [reflexivity|].
      destruct (Z.ltb_spec (Z.of_nat i) (len (pushed_buffer (raw f) h)))
        as [Hlt|Hge].
      * rewrite pushed_buffer_nth by assumption.
        destruct (Z.leb_spec (rec_addr h) (Z.of_nat i));
          destruct (Z.ltb_spec (Z.of_nat i) (rec_end h)); cbn [andb];
          try reflexivity.
        f_equal. pose proof (rec_addr_range h). lia.
      * destruct (Z.leb_spec (rec_addr h) (Z.of_nat i));
          destruct (Z.ltb_spec (Z.of_nat i) (rec_end h)); cbn [andb];
          try lia;
          destruct (Z.ltb_spec (Z.of_nat i) (len (raw f)));
          try lia; reflexivity.
Qed.

Lemma over_record_ok : data_record over_record.
Proof. unfold data_record, record_ok. repeat split; vm_compute; congruence. Qed.

Lemma loaded_buffer_contents_witness :
  exists f',
    push_all new_Firmware [low_record; over_record] = Returned f'
    /\ len (raw f') = 4
    /\ raw f' = [Byte.x11; Byte.x22; Byte.xee; Byte.xff].
Proof.
  destruct (loaded_buffer_contents [low_record; over_record]) with
    (f := new_Firmware) as (f' & E & L & N).
  - repeat (apply Forall_cons;
            [first [exact low_record_ok | exact over_record_ok]|]).
    apply Forall_nil.
  - exists f'. split; [exact E|].
    change (Z.max (len (raw new_Firmware)) (max_end [low_record; over_record]))
      with 4 in L.
    split; [exact L|].
    apply (nth_ext _ _ Byte.x00 Byte.x00).
    + unfold len in L. cbn [List.length]. lia.
    + intros i Hi. rewrite N by (unfold len; lia).
      assert (Hc : (i < 4)%nat) by (unfold len in L; lia).
      destruct i as [|[|[|[|i]]]]; [reflexivity..|lia].
Defined.

(** ** A hex file and the image it carries *)









(** What the data records leave of the other fields. *)
Lemma pushed_data_keeps (f : Firmware) (h : bytes) :
  TailPos (pushed_data f h) = TailPos f
  /\ Signature (pushed_data f h) = Signature f
  /\ HasSignature (pushed_data f h) = HasSignature f.
Proof. repeat split. Qed.






